(** * The JNI wrapper around the fvad voice-activity detector

    A shallow embedding of
    [src/native/org_jitsi_webrtcvadwrapper_WebRTCVad.cpp]: the four native
    methods [nativeOpen], [nativeClose], [nativeIsOpen] and [nativeIsSpeech]
    together with the two accessors of the Java field [nativeVadPointer].

    The wrapper owns no algorithm.  It keeps a pointer to an [Fvad] instance
    in a [long] field of the Java object and forwards every call to the
    library declared by [fvad.h], which is not part of the sources.  The
    library is therefore an interface here ([FvadLib]); the native heap on
    which its instances live, the Java field and the allocator are explicit
    state. *)

From stdpp Require Import gmap list.

Local Open Scope Z_scope.

(** ** Machine integers *)

(** Java's [int] array elements ([jint]) are 32-bit. *)
Definition is_jint (x : Z) : Prop := -2147483648 <= x <= 2147483647.

(** The range of [int16_t]. *)
Definition is_int16 (x : Z) : Prop := -32768 <= x <= 32767.

(** [audioSample[i] = javaArray[i]]: the implicit conversion of a [jint] to
    [int16_t] keeps the value modulo 2^16, read as a signed number. *)
Definition to_int16 (x : Z) : Z := (x + 32768) mod 65536 - 32768.

(** [y] is [x] cut down to 16 bits: the signed 16-bit number with the
    bits of [x]. *)
Definition wraps_to (x y : Z) : Prop :=
  is_int16 y ∧ y mod 65536 = x mod 65536.

(** What a saturating conversion would give instead. *)
Definition clamp16 (x : Z) : Z := Z.max (-32768) (Z.min 32767 x).

(** Raw addresses, as they are stored in the Java [long] field through
    [reinterpret_cast<jlong>]. *)
Definition ptr := Z.
Definition nullptr : ptr := 0.

(** A reference to a Java object ([jobject]). *)
Definition jobject := positive.

(** ** The interface of the wrapped library *)

(** What [fvad.h] offers, per instance: the state [fvad_new] creates, and
    the two setters and the classifier as functions from the instance and
    their argument to the new instance and the library's [int] result.
    [assert_inst] tells whether the library is built with its checks of the
    instance argument: with them a null instance aborts the process, without
    them it is used as it is.  The library is a parameter of all that
    follows. *)
Record FvadLib : Type := {
  Inst : Type;
  fvad_init : Inst;
  set_sample_rate : Inst -> Z -> Inst * Z;
  set_mode : Inst -> Z -> Inst * Z;
  process : Inst -> list Z -> Inst * Z;
  assert_inst : bool
}.

(** How a native call can end without returning. *)
Inductive crash : Type :=
| Abort      (* the process is stopped by a failed check: reported *)
| Undefined. (* use of a pointer that is not a live instance *)

Section Wrapper.

Context (L : FvadLib).

(** ** State *)

(** [fields] holds [nativeVadPointer] of each Java object (a [long] field
    is 0 until written); [heap] holds the live [Fvad] instances by address;
    [supply] lists the addresses the allocator hands out next, and is empty
    when memory is exhausted. *)
Record world : Type := {
  fields : gmap jobject Z;
  heap : gmap ptr (Inst L);
  supply : list ptr
}.

Inductive outcome (A : Type) : Type :=
| Ret (a : A) (w : world)
| Crash (c : crash).
Arguments Ret {A} a w.
Arguments Crash {A} c.

(** Native code: a state transformer that may crash. *)
Definition M (A : Type) : Type := world -> outcome A.

Definition ret {A} (a : A) : M A := fun w => Ret a w.

Definition bind {A B} (m : M A) (k : A -> M B) : M B :=
  fun w => match m w with
           | Ret a w' => k a w'
           | Crash c => Crash c
           end.

Notation "'call' x := m 'in' k" := (bind m (fun x => k))
  (at level 10, x name, m at level 100, k at level 200).
Notation "'run' m 'in' k" := (bind m (fun _ => k))
  (at level 10, m at level 100, k at level 200).

(** ** The library's entry points, on pointers *)

(** [fvad.h] declares the entry points over [Fvad*]; their bodies are not
    among the sources.  Each is taken to read and write the instance its
    argument points to.  A pointer that is not null and not a live instance
    (released, or never allocated) makes the call undefined.  A null pointer
    stops the process at the library's check when the library has one;
    without the check a use of the instance is undefined and a release is
    the no-op of [free]. *)

(** What an entry point that uses its instance does with a null one. *)
Definition null_use : crash := if assert_inst L then Abort else Undefined.

(** [fvad_new()]: a fresh, initialised instance, or null. *)
Definition fvad_new : M ptr := fun w =>
  match supply w with
  | [] => Ret nullptr w
  | p :: rest =>
      Ret p {| fields := fields w;
               heap := <[p := fvad_init L]> (heap w);
               supply := rest |}
  end.

(** An entry point that reads and updates the instance behind [p]. *)
Definition on_inst {A} (p : ptr) (f : Inst L -> Inst L * A) : M A := fun w =>
  if decide (p = nullptr) then Crash null_use
  else match heap w !! p with
       | None => Crash Undefined
       | Some i =>
           Ret (f i).2 {| fields := fields w;
                          heap := <[p := (f i).1]> (heap w);
                          supply := supply w |}
       end.

Definition fvad_set_sample_rate (p : ptr) (sample_rate : Z) : M Z :=
  on_inst p (fun i => set_sample_rate L i sample_rate).

Definition fvad_set_mode (p : ptr) (mode : Z) : M Z :=
  on_inst p (fun i => set_mode L i mode).

Definition fvad_process (p : ptr) (frame : list Z) : M Z :=
  on_inst p (fun i => process L i frame).

(** [fvad_free(inst)]: releases the instance.  On null it is the failed
    check, or the no-op of [free]; on an address that is not live it is a
    double or wild release. *)
Definition fvad_free (p : ptr) : M unit := fun w =>
  if decide (p = nullptr) then
    if assert_inst L then Crash Abort else Ret tt w
  else match heap w !! p with
       | None => Crash Undefined
       | Some _ =>
           Ret tt {| fields := fields w;
                     heap := delete p (heap w);
                     supply := supply w |}
       end.

(** ** The accessors of [nativeVadPointer] *)

Definition setPointerToVadObject (thisObj : jobject) (vadPtr : ptr) : M unit :=
  fun w => Ret tt {| fields := <[thisObj := vadPtr]> (fields w);
                     heap := heap w;
                     supply := supply w |}.

Definition getPointerToVadObject (thisObj : jobject) : M ptr :=
  fun w => Ret (default 0 (fields w !! thisObj)) w.

(** ** The native methods *)

Definition nativeOpen (thisObj : jobject) (sampleRate mode : Z) : M unit :=
  call vadPtr := fvad_new in
  run fvad_set_sample_rate vadPtr sampleRate in
  run fvad_set_mode vadPtr mode in
  setPointerToVadObject thisObj vadPtr.

Definition nativeClose (thisObj : jobject) : M unit :=
  call vadPtr := getPointerToVadObject thisObj in
  run fvad_free vadPtr in
  setPointerToVadObject thisObj nullptr.

Definition nativeIsOpen (thisObj : jobject) : M bool :=
  call vadPrt := getPointerToVadObject thisObj in
  if decide (vadPrt ≠ nullptr) then ret true else ret false.

(** The copy loop of [nativeIsSpeech]: [n] iterations left, at index [i]. *)
Fixpoint copy_loop (n : nat) (i : nat) (javaArray audioSample : list Z)
  : list Z :=
  match n with
  | O => audioSample
  | S n' =>
      copy_loop n' (S i) javaArray
        (<[i := to_int16 (javaArray !!! i)]> audioSample)
  end.

(** [new int16_t[len]] filled by the loop; the list carries its length,
    the [(size_t) len] handed to [fvad_process]. *)
Definition narrow_samples (javaArray : list Z) : list Z :=
  let len := length javaArray in
  copy_loop len 0 javaArray (replicate len 0).

(** [nativeIsSpeech] on the contents of its array argument: the call once
    the length and the elements of a live array are at hand (lines 103 to
    114).  [nativeIsSpeech_jni] below adds the array reference, the request
    for its elements and the allocation of the scratch array. *)
Definition nativeIsSpeech (thisObj : jobject) (javaAudioSample : list Z)
  : M Z :=
  let audioSample := narrow_samples javaAudioSample in
  call vadPtr := getPointerToVadObject thisObj in
  call result := fvad_process vadPtr audioSample in
  ret result.

End Wrapper.

Arguments Ret {L A} a w.
Arguments Crash {L A} c.
Arguments fields {L} w.
Arguments heap {L} w.
Arguments supply {L} w.
Arguments ret {L A} a w.
Arguments bind {L A B} m k w.

Notation "'call' x := m 'in' k" := (bind m (fun x => k))
  (at level 10, x name, m at level 100, k at level 200).
Notation "'run' m 'in' k" := (bind m (fun _ => k))
  (at level 10, m at level 100, k at level 200).

(** ** Callers and well-formed states *)

Section Callers.

Context {L : FvadLib}.

(** The handle an object holds. *)
Definition handle (w : world L) (o : jobject) : ptr :=
  default 0 (fields w !! o).

(** A caller that feeds a sequence of frames to one object, in order, and
    collects the results. *)
Fixpoint classify_all (o : jobject) (frames : list (list Z))
  : M L (list Z) :=
  match frames with
  | [] => ret []
  | f :: fs =>
      call d := nativeIsSpeech L o f in
      call ds := classify_all o fs in
      ret (d :: ds)
  end.

(** A caller that feeds each frame to two objects in turn. *)
Fixpoint classify_pair (o1 o2 : jobject) (frames : list (list Z))
  : M L (list (Z * Z)) :=
  match frames with
  | [] => ret []
  | f :: fs =>
      call d1 := nativeIsSpeech L o1 f in
      call d2 := nativeIsSpeech L o2 f in
      call ds := classify_pair o1 o2 fs in
      ret ((d1, d2) :: ds)
  end.

(** The library alone, run on an instance: its results and its last state. *)
Fixpoint decisions (i : Inst L) (frames : list (list Z)) : list Z :=
  match frames with
  | [] => []
  | f :: fs => (process L i f).2 :: decisions (process L i f).1 fs
  end.

Fixpoint final (i : Inst L) (frames : list (list Z)) : Inst L :=
  match frames with
  | [] => i
  | f :: fs => final (process L i f).1 fs
  end.

(** The instance [nativeOpen] leaves behind the new handle. *)
Definition configured (sampleRate mode : Z) : Inst L :=
  (set_mode L (set_sample_rate L (fvad_init L) sampleRate).1 mode).1.

(** The states the native methods keep to: null is never an instance, every
    handle stored in an object is null or live, no two objects hold the same
    instance, and the allocator only hands out addresses that are free. *)
Definition wf_world (w : world L) : Prop :=
  heap w !! nullptr = None ∧
  (∀ o p, fields w !! o = Some p → p ≠ nullptr → is_Some (heap w !! p)) ∧
  (∀ o1 o2 p, fields w !! o1 = Some p → fields w !! o2 = Some p →
              p ≠ nullptr → o1 = o2) ∧
  NoDup (supply w) ∧
  (∀ p, p ∈ supply w → p ≠ nullptr ∧ heap w !! p = None).

(** No object has been opened yet. *)
Definition world0 (addresses : list ptr) : world L :=
  {| fields := ∅; heap := ∅; supply := addresses |}.

(** The native methods as the calls a Java program can make, and a program
    as a sequence of them. *)
Inductive native_call : Type :=
| CallOpen (o : jobject) (sampleRate mode : Z)
| CallClose (o : jobject)
| CallIsOpen (o : jobject)
| CallIsSpeech (o : jobject) (frame : list Z).

Definition exec (c : native_call) : M L unit :=
  match c with
  | CallOpen o sampleRate mode => nativeOpen L o sampleRate mode
  | CallClose o => nativeClose L o
  | CallIsOpen o => run nativeIsOpen L o in ret tt
  | CallIsSpeech o frame => run nativeIsSpeech L o frame in ret tt
  end.

Fixpoint exec_all (cs : list native_call) : M L unit :=
  match cs with
  | [] => ret tt
  | c :: cs' => run exec c in exec_all cs'
  end.

(** The life cycle of one object, read off the calls alone: open after an
    open, closed after a close, unchanged by everything else. *)
Definition lifecycle_step (o : jobject) (is_open : bool) (c : native_call)
  : bool :=
  match c with
  | CallOpen o' _ _ => if decide (o' = o) then true else is_open
  | CallClose o' => if decide (o' = o) then false else is_open
  | CallIsOpen _ | CallIsSpeech _ _ => is_open
  end.

Definition lifecycle (o : jobject) (is_open : bool) (cs : list native_call)
  : bool :=
  fold_left (lifecycle_step o) cs is_open.

(** The value a call returns, if it returns. *)
Definition returned {A} (r : outcome L A) : option A :=
  match r with
  | Ret a _ => Some a
  | Crash _ => None
  end.

End Callers.

(** ** The detector behind the interface, as the specification has it *)

(** Modelled from the spec: the supported sample rates of the detector core
    (the library behind [fvad.h], absent from the sources): 8000, 16000, 32000
    and 48000 Hz. *)
Definition supported_rate (r : Z) : bool :=
  (r =? 8000) || (r =? 16000) || (r =? 32000) || (r =? 48000).

(** Modelled from the spec: the supported modes of the detector core, the
    integers 0 to 3. *)
Definition supported_mode (m : Z) : bool := (0 <=? m) && (m <=? 3).

(** Modelled from the spec: the frame lengths the detector core accepts, 10,
    20 or 30 ms of audio at the configured rate (160, 320 or 480 samples at
    16 kHz). *)
Definition valid_length (rate : Z) (len : nat) : bool :=
  let n := Z.of_nat len in
  (n =? rate / 1000 * 10) || (n =? rate / 1000 * 20) || (n =? rate / 1000 * 30).

(** Modelled from the spec: what the detector core (absent from the sources)
    does with a frame of unsupported length: it answers -1 and keeps its state.
    [rate_of] reads the rate an instance is configured for. *)
Definition rejects_bad_frames (L : FvadLib) (rate_of : Inst L → Z) : Prop :=
  ∀ i frame,
    valid_length (rate_of i) (length frame) = false →
    process L i frame = (i, -1).

(** Modelled from the spec: the detector core (absent from the sources) adopts
    a supported rate, and setting the mode leaves the rate alone. *)
Definition adopts_rate (L : FvadLib) (rate_of : Inst L → Z) : Prop :=
  (∀ i r, supported_rate r = true →
          (set_sample_rate L i r).2 = 0 ∧
          rate_of (set_sample_rate L i r).1 = r) ∧
  (∀ i m, rate_of (set_mode L i m).1 = rate_of i).

(** Modelled from the spec: the hangover smoother of the detector core (absent
    from the sources), a finite automaton over the raw verdicts.  SILENCE goes
    to SPEECH on a raw speech verdict; SPEECH goes to HOLDING(max) on a raw
    non-speech verdict; HOLDING(n) goes to HOLDING(n-1) on a raw non-speech
    verdict while n>0 and to SPEECH on a raw speech verdict; HOLDING(0) goes
    to SILENCE.  The two moves the spec leaves out stay in place. *)
Inductive hangover : Type :=
| SILENCE
| SPEECH
| HOLDING (n : nat).

Definition hang_step (max : nat) (s : hangover) (raw : bool) : hangover :=
  match s, raw with
  | SILENCE, true => SPEECH
  | SILENCE, false => SILENCE
  | SPEECH, true => SPEECH
  | SPEECH, false => HOLDING max
  | HOLDING _, true => SPEECH
  | HOLDING (S n), false => HOLDING n
  | HOLDING O, false => SILENCE
  end.

(** Modelled from the spec: the decision the hangover smoother emits, speech
    (true) in SPEECH and in every HOLDING(n), non-speech in SILENCE. *)
Definition emit (s : hangover) : bool :=
  match s with
  | SILENCE => false
  | SPEECH | HOLDING _ => true
  end.

(** Modelled from the spec: the hangover smoother run over a sequence of raw
    verdicts, giving the decision emitted at each frame. *)
Fixpoint hang_run (max : nat) (s : hangover) (raws : list bool) : list bool :=
  match raws with
  | [] => []
  | r :: rs => emit (hang_step max s r) :: hang_run max (hang_step max s r) rs
  end.

Fixpoint hang_end (max : nat) (s : hangover) (raws : list bool) : hangover :=
  match raws with
  | [] => s
  | r :: rs => hang_end max (hang_step max s r) rs
  end.

Module RefVad.

(** Modelled from the spec: the state of the detector core (absent from the
    sources) as far as the spec fixes it: the configuration and the hangover
    automaton. *)
Record inst : Type := {
  rate : Z;
  mode : Z;
  hang : hangover
}.

Section Core.

(** The features and mixture models behind the raw verdict and the hold
    length of each mode are left open by the spec: they are parameters. *)
Variable raw_verdict : Z → list Z → bool.
Variable hold : Z → nat.
Variable checked : bool.

(** Modelled from the spec: a new instance of the detector core starts in
    SILENCE; the spec fixes no configuration before the first setting, the
    lowest rate and mode are taken. *)
Definition init : inst := {| rate := 8000; mode := 0; hang := SILENCE |}.

(** Modelled from the spec: the detector core validates the rate against
    the supported set; 0 on success, -1 otherwise. *)
Definition ref_set_sample_rate (i : inst) (r : Z) : inst * Z :=
  if supported_rate r
  then ({| rate := r; mode := mode i; hang := hang i |}, 0)
  else (i, -1).

(** Modelled from the spec: the detector core validates the mode against
    0..3; 0 on success, -1 otherwise. *)
Definition ref_set_mode (i : inst) (m : Z) : inst * Z :=
  if supported_mode m
  then ({| rate := rate i; mode := m; hang := hang i |}, 0)
  else (i, -1).

(** Modelled from the spec: the frame classifier of the detector core: a
    frame of unsupported length is refused with -1 and no change of state;
    otherwise the raw verdict drives the hangover automaton and the emitted
    decision is 1 for speech and 0 for non-speech. *)
Definition ref_process (i : inst) (frame : list Z) : inst * Z :=
  if valid_length (rate i) (length frame) then
    let h := hang_step (hold (mode i)) (hang i) (raw_verdict (mode i) frame) in
    ({| rate := rate i; mode := mode i; hang := h |},
     if emit h then 1 else 0)
  else (i, -1).

Definition lib : FvadLib :=
  {| Inst := inst;
     fvad_init := init;
     set_sample_rate := ref_set_sample_rate;
     set_mode := ref_set_mode;
     process := ref_process;
     assert_inst := checked |}.

End Core.

(** A raw verdict to run examples with: a frame counts as speech when one
    of its samples reaches a magnitude of 1000 per mode step. *)
Definition peak_verdict (m : Z) (frame : list Z) : bool :=
  existsb (fun s => 1000 * (m + 1) <=? Z.abs s) frame.

(** The example library, without and with the instance checks. *)
Definition plain : FvadLib := lib peak_verdict (fun _ => 2%nat) false.
Definition strict : FvadLib := lib peak_verdict (fun _ => 2%nat) true.

End RefVad.

(** An all-zero frame of [n] samples, and a loud one. *)
Definition silence (n : nat) : list Z := replicate n 0.
Definition tone (n : nat) : list Z := replicate n 20000.

(** A state to run examples in: object 1 holds a detector at 16 kHz, mode 2,
    in the middle of speech; object 2 was never opened; one more address
    can be allocated. *)
Definition busy : RefVad.inst :=
  {| RefVad.rate := 16000; RefVad.mode := 2; RefVad.hang := SPEECH |}.

Definition example_world (L : FvadLib) (i : Inst L) : world L :=
  {| fields := {[ 1%positive := 4096 ]};
     heap := {[ 4096 := i ]};
     supply := [8192] |}.

(** The same state after object 1 has been closed. *)
Definition example_closed (L : FvadLib) : world L :=
  {| fields := {[ 1%positive := nullptr ]};
     heap := ∅;
     supply := [8192] |}.

(** The object a native call is made on. *)
Definition call_object (c : native_call) : jobject :=
  match c with
  | CallOpen o _ _ | CallClose o | CallIsOpen o | CallIsSpeech o _ => o
  end.

(** An instance nothing leads to any more: no object holds its address and
    the allocator will not hand it out. *)
Definition orphan {L : FvadLib} (w : world L) (p : ptr) : Prop :=
  p ≠ nullptr ∧ (∀ o, handle w o ≠ p) ∧ p ∉ supply w.

(** Two samples with the same low 16 bits. *)
Definition same_low16 (x y : Z) : Prop := x mod 65536 = y mod 65536.

(** ** The array argument of [nativeIsSpeech] *)

(** A reference to a Java [int] array ([jintArray]): null, or an array. *)
Definition jintArray := option positive.

(** What [nativeIsSpeech] uses of the virtual machine and of the C++ heap
    besides the detector.  [arrays] holds the live Java [int] arrays.
    [held] lists the arrays whose elements were handed out by
    [GetIntArrayElements] and not given back by [ReleaseIntArrayElements].
    [elements_ok] tells for each coming [GetIntArrayElements] whether the
    machine provides the elements; it returns null when it does not.
    [scratch_live] counts the arrays made by [new[]] and not deleted yet,
    and [scratch_ok] tells for each coming [new[]] whether it succeeds. *)
Record jni : Type := {
  arrays : gmap positive (list Z);
  held : list positive;
  elements_ok : list bool;
  scratch_live : nat;
  scratch_ok : list bool
}.

(** [GetArrayLength]: defined on a reference to a live array only. *)
Definition GetArrayLength (a : jintArray) (j : jni) : option nat :=
  match a with
  | None => None
  | Some r => length <$> arrays j !! r
  end.

(** [GetIntArrayElements(array, nullptr)]: the elements, which stay handed
    out until they are released, or null. *)
Definition GetIntArrayElements (r : positive) (j : jni)
  : option (list Z) * jni :=
  match elements_ok j, arrays j !! r with
  | true :: rest, Some elems =>
      (Some elems,
       {| arrays := arrays j; held := r :: held j; elements_ok := rest;
          scratch_live := scratch_live j; scratch_ok := scratch_ok j |})
  | _ :: rest, _ =>
      (None,
       {| arrays := arrays j; held := held j; elements_ok := rest;
          scratch_live := scratch_live j; scratch_ok := scratch_ok j |})
  | [], _ => (None, j)
  end.

(** [new int16_t[len]]: an array of [len] cells, or no array, in which case
    the exception leaves the native method and stops the process. *)
Definition new_int16 (len : nat) (j : jni) : option (list Z * jni) :=
  match scratch_ok j with
  | true :: rest =>
      Some (replicate len 0,
            {| arrays := arrays j; held := held j;
               elements_ok := elements_ok j;
               scratch_live := S (scratch_live j); scratch_ok := rest |})
  | _ => None
  end.

(** [delete[] audioSample]. *)
Definition delete_int16 (j : jni) : jni :=
  {| arrays := arrays j; held := held j; elements_ok := elements_ok j;
     scratch_live := Nat.pred (scratch_live j); scratch_ok := scratch_ok j |}.

(** The copy loop on what [GetIntArrayElements] returned: [javaArray[i]] is
    read through the pointer, null or not, as soon as the loop runs once. *)
Definition copy_elements (javaArray : option (list Z)) (len : nat)
    (audioSample : list Z) : option (list Z) :=
  match javaArray, len with
  | Some elems, _ => Some (copy_loop len 0 elems audioSample)
  | None, O => Some audioSample
  | None, S _ => None
  end.

Section JNI.

Context (L : FvadLib).

Inductive jni_outcome (A : Type) : Type :=
| JRet (a : A) (j : jni) (w : world L)
| JCrash (c : crash).
Arguments JRet {A} a j w.
Arguments JCrash {A} c.

(** [nativeIsSpeech] with its array argument as the native method gets it:
    lines 100 to 114, call by call. *)
Definition nativeIsSpeech_jni (thisObj : jobject) (javaAudioSample : jintArray)
    (j : jni) (w : world L) : jni_outcome Z :=
  match GetArrayLength javaAudioSample j, javaAudioSample with
  | Some len, Some r =>
      let (javaArray, j1) := GetIntArrayElements r j in
      match new_int16 len j1 with
      | None => JCrash Abort
      | Some (fresh, j2) =>
          match copy_elements javaArray len fresh with
          | None => JCrash Undefined
          | Some audioSample =>
              match (call vadPtr := getPointerToVadObject L thisObj in
                     fvad_process L vadPtr audioSample) w with
              | Ret result w' => JRet result (delete_int16 j2) w'
              | Crash c => JCrash c
              end
          end
      end
  | _, _ => JCrash Undefined
  end.

End JNI.

Arguments JRet {L A} a j w.
Arguments JCrash {L A} c.

(** A machine to run examples on: array 7 is a loud frame of 160 samples,
    array 8 is empty, one buffer is held already, and the next two requests
    of each kind succeed. *)
Definition example_jni : jni :=
  {| arrays := {[ 7%positive := tone 160; 8%positive := [] ]};
     held := [7%positive];
     elements_ok := [true; true];
     scratch_live := 0;
     scratch_ok := [true; true] |}.

(** * Properties *)

(** ** The narrowing of samples *)

Lemma to_int16_range (x : Z) : is_int16 (to_int16 x).
Proof.
  unfold is_int16, to_int16.
  pose proof (Z.mod_pos_bound (x + 32768) 65536 ltac:(lia)). lia.
Qed.

Lemma to_int16_mod (x : Z) : to_int16 x mod 65536 = x mod 65536.
Proof.
  unfold to_int16.
  rewrite Zminus_mod_idemp_l.
  f_equal. lia.
Qed.

Lemma to_int16_id (x : Z) : is_int16 x → to_int16 x = x.
Proof.
  unfold is_int16, to_int16. intros Hx.
  rewrite Z.mod_small; lia.
Qed.

Lemma to_int16_changes (x : Z) : ¬ is_int16 x → to_int16 x ≠ x.
Proof.
  intros Hout Heq. apply Hout. rewrite <- Heq. apply to_int16_range.
Qed.

Lemma copy_loop_spec (n i : nat) (javaArray audioSample : list Z) :
  length audioSample = length javaArray →
  (i + n)%nat = length javaArray →
  copy_loop n i javaArray audioSample
  = take i audioSample ++ map to_int16 (drop i javaArray).
Proof.
  revert i audioSample.
  induction n as [|n IH]; intros i dst Hlen Hi; simpl.
  - rewrite drop_ge by lia. simpl. rewrite app_nil_r.
    rewrite take_ge by lia. reflexivity.
  - assert (Hlt : (i < length javaArray)%nat) by lia.
    destruct (lookup_lt_is_Some_2 javaArray i Hlt) as [x Hx].
    rewrite IH by (rewrite ?length_insert; lia).
    rewrite (list_lookup_total_correct _ _ _ Hx).
    rewrite (take_S_r _ _ (to_int16 x))
      by (apply list_lookup_insert_eq; lia).
    rewrite take_insert_ge by lia.
    rewrite (drop_S _ _ _ Hx). simpl.
    rewrite <- app_assoc. reflexivity.
Qed.

Lemma narrow_samples_map (javaArray : list Z) :
  narrow_samples javaArray = map to_int16 javaArray.
Proof.
  unfold narrow_samples.
  rewrite copy_loop_spec by (rewrite ?length_replicate; lia).
  reflexivity.
Qed.

Lemma narrow_samples_length (javaArray : list Z) :
  length (narrow_samples javaArray) = length javaArray.
Proof. rewrite narrow_samples_map. apply length_map. Qed.

(** ** One call of each native method *)

Section Calls.

Context {L : FvadLib}.
Implicit Types (w : world L) (o : jobject) (p : ptr).

Lemma bind_ret_r {A} (m : M L A) w : (call x := m in ret x) w = m w.
Proof. unfold bind. destruct (m w); reflexivity. Qed.

(** [nativeIsSpeech] is [fvad_process] on the stored handle and the
    narrowed samples. *)
Lemma nativeIsSpeech_eq o frame w :
  nativeIsSpeech L o frame w
  = fvad_process L (handle w o) (map to_int16 frame) w.
Proof.
  unfold nativeIsSpeech. rewrite narrow_samples_map.
  unfold bind at 1. unfold getPointerToVadObject.
  apply bind_ret_r.
Qed.

Lemma nativeIsSpeech_live o frame w p i :
  handle w o = p → p ≠ nullptr → heap w !! p = Some i →
  nativeIsSpeech L o frame w
  = Ret (process L i (map to_int16 frame)).2
        {| fields := fields w;
           heap := <[p := (process L i (map to_int16 frame)).1]> (heap w);
           supply := supply w |}.
Proof.
  intros Hh Hp Hi. rewrite nativeIsSpeech_eq, Hh.
  unfold fvad_process, on_inst.
  destruct (decide (p = nullptr)) as [|_]; [done|].
  rewrite Hi. reflexivity.
Qed.

Lemma nativeIsSpeech_null o frame w :
  handle w o = nullptr →
  nativeIsSpeech L o frame w = Crash (null_use L).
Proof.
  intros Hh. rewrite nativeIsSpeech_eq, Hh.
  unfold fvad_process, on_inst.
  destruct (decide (nullptr = nullptr)); done.
Qed.

Lemma nativeIsOpen_eq o w :
  nativeIsOpen L o w = Ret (bool_decide (handle w o ≠ nullptr)) w.
Proof.
  unfold nativeIsOpen, bind, getPointerToVadObject. fold (handle w o).
  destruct (decide (handle w o ≠ nullptr)) as [E|E].
  - rewrite bool_decide_eq_true_2 by exact E. reflexivity.
  - rewrite bool_decide_eq_false_2 by exact E. reflexivity.
Qed.

Lemma nativeOpen_ok o sampleRate mode w p rest :
  supply w = p :: rest → p ≠ nullptr →
  nativeOpen L o sampleRate mode w
  = Ret tt {| fields := <[o := p]> (fields w);
              heap := <[p := configured sampleRate mode]> (heap w);
              supply := rest |}.
Proof.
  intros Hs Hp.
  unfold nativeOpen, bind, fvad_new. rewrite Hs.
  unfold fvad_set_sample_rate, fvad_set_mode, on_inst. simpl.
  destruct (decide (p = nullptr)) as [|_]; [done|].
  rewrite lookup_insert_eq. simpl.
  destruct (decide (p = nullptr)) as [|_]; [done|].
  rewrite lookup_insert_eq. simpl.
  unfold setPointerToVadObject. simpl.
  rewrite !insert_insert_eq. reflexivity.
Qed.

Lemma nativeOpen_exhausted o sampleRate mode w :
  supply w = [] →
  nativeOpen L o sampleRate mode w = Crash (null_use L).
Proof.
  intros Hs. unfold nativeOpen, bind, fvad_new. rewrite Hs.
  unfold fvad_set_sample_rate, on_inst.
  destruct (decide (nullptr = nullptr)); done.
Qed.

Lemma nativeClose_live o w p i :
  handle w o = p → p ≠ nullptr → heap w !! p = Some i →
  nativeClose L o w
  = Ret tt {| fields := <[o := nullptr]> (fields w);
              heap := delete p (heap w);
              supply := supply w |}.
Proof.
  intros Hh Hp Hi.
  unfold nativeClose, bind, getPointerToVadObject. fold (handle w o).
  rewrite Hh. unfold fvad_free.
  destruct (decide (p = nullptr)) as [|_]; [done|].
  rewrite Hi. reflexivity.
Qed.

Lemma nativeClose_null o w :
  handle w o = nullptr →
  nativeClose L o w
  = if assert_inst L then Crash Abort
    else Ret tt {| fields := <[o := nullptr]> (fields w);
                   heap := heap w;
                   supply := supply w |}.
Proof.
  intros Hh.
  unfold nativeClose, bind, getPointerToVadObject. fold (handle w o).
  rewrite Hh. unfold fvad_free.
  destruct (decide (nullptr = nullptr)); [|done].
  destruct (assert_inst L); reflexivity.
Qed.

Lemma nativeClose_dangling o w p :
  handle w o = p → p ≠ nullptr → heap w !! p = None →
  nativeClose L o w = Crash Undefined.
Proof.
  intros Hh Hp Hi.
  unfold nativeClose, bind, getPointerToVadObject. fold (handle w o).
  rewrite Hh. unfold fvad_free.
  destruct (decide (p = nullptr)) as [|_]; [done|].
  rewrite Hi. reflexivity.
Qed.

(** Whenever [nativeClose] returns, the object's field holds null and
    nothing else has been written to the fields. *)
Lemma nativeClose_returns o w w' :
  nativeClose L o w = Ret tt w' →
  fields w' = <[o := nullptr]> (fields w) ∧ supply w' = supply w.
Proof.
  unfold nativeClose, bind, getPointerToVadObject, fvad_free.
  fold (handle w o). intros H.
  destruct (decide (handle w o = nullptr)).
  - destruct (assert_inst L); [discriminate|].
    injection H as <-. done.
  - destruct (heap w !! handle w o); [|discriminate].
    injection H as <-. done.
Qed.

Lemma handle_insert_eq o p (fs : gmap jobject Z) hp sp :
  handle (L := L) {| fields := <[o := p]> fs; heap := hp; supply := sp |} o = p.
Proof. unfold handle. simpl. by rewrite lookup_insert_eq. Qed.

Lemma handle_insert_ne o o' p (fs : gmap jobject Z) hp hp' sp sp' :
  o ≠ o' →
  handle (L := L) {| fields := <[o := p]> fs; heap := hp; supply := sp |} o'
  = handle (L := L) {| fields := fs; heap := hp'; supply := sp' |} o'.
Proof. intros. unfold handle. simpl. by rewrite lookup_insert_ne. Qed.

Lemma handle_nonnull w o p :
  handle w o = p → p ≠ nullptr → fields w !! o = Some p.
Proof.
  unfold handle. destruct (fields w !! o) as [q|]; simpl.
  - by intros ->.
  - intros <-. done.
Qed.

End Calls.

(** ** The native methods keep to well-formed states *)

Section Invariant.

Context {L : FvadLib}.
Implicit Types (w : world L) (o : jobject) (p : ptr).

Lemma wf_world0 (addresses : list ptr) :
  NoDup addresses → nullptr ∉ addresses →
  wf_world (L := L) (world0 addresses).
Proof.
  intros Hnd H0. unfold wf_world, world0. simpl.
  repeat split; try done.
  intros ->. done.
Qed.

Lemma wf_live w o p :
  wf_world w → handle w o = p → p ≠ nullptr → is_Some (heap w !! p).
Proof.
  intros (_ & Hlive & _) Hh Hp.
  apply (Hlive o). - by apply handle_nonnull. - done.
Qed.

Lemma nativeOpen_wf o sampleRate mode w w' :
  wf_world w → nativeOpen L o sampleRate mode w = Ret tt w' → wf_world w'.
Proof.
  intros (H0 & Hlive & Hinj & Hnd & Hfree) Hopen.
  destruct (supply w) as [|p rest] eqn:Hs.
  - rewrite (nativeOpen_exhausted _ _ _ _ Hs) in Hopen. discriminate.
  - destruct (Hfree p) as [Hp Hnone]; [left|].
    rewrite (nativeOpen_ok _ _ _ _ _ _ Hs Hp) in Hopen.
    injection Hopen as <-.
    apply NoDup_cons in Hnd as [Hnotin Hnd].
    unfold wf_world. simpl. repeat split.
    + rewrite lookup_insert_ne; done.
    + intros o' q Hq Hq0.
      destruct (decide (p = q)) as [->|Hpq].
      * rewrite lookup_insert_eq. eauto.
      * rewrite lookup_insert_ne by done.
        destruct (decide (o = o')) as [->|Hoo].
        -- rewrite lookup_insert_eq in Hq. congruence.
        -- rewrite lookup_insert_ne in Hq by done. eauto.
    + intros o1 o2 q H1 H2 Hq0.
      destruct (decide (o = o1)) as [E1|Ho1], (decide (o = o2)) as [E2|Ho2].
      * congruence.
      * subst o1. rewrite lookup_insert_eq in H1.
        rewrite lookup_insert_ne in H2 by done. injection H1 as <-.
        destruct (Hlive _ _ H2 Hq0) as [? ?]. congruence.
      * subst o2. rewrite lookup_insert_eq in H2.
        rewrite lookup_insert_ne in H1 by done. injection H2 as <-.
        destruct (Hlive _ _ H1 Hq0) as [? ?]. congruence.
      * rewrite lookup_insert_ne in H1, H2 by done. eauto.
    + done.
    + destruct (Hfree p0) as [? ?]; [by right|done].
    + destruct (Hfree p0) as [? ?]; [by right|].
      rewrite lookup_insert_ne; [done|]. intros ->. done.
Qed.

Lemma nativeClose_wf o w w' :
  wf_world w → nativeClose L o w = Ret tt w' → wf_world w'.
Proof.
  intros Hwf Hclose.
  pose proof Hwf as (H0 & Hlive & Hinj & Hnd & Hfree).
  destruct (decide (handle w o = nullptr)) as [E|E].
  - rewrite (nativeClose_null _ _ E) in Hclose.
    destruct (assert_inst L); [discriminate|]. injection Hclose as <-.
    unfold wf_world. simpl. repeat split; try done.
    + intros o' q Hq Hq0. destruct (decide (o = o')) as [Eo|Hoo].
      * subst o'. rewrite lookup_insert_eq in Hq. congruence.
      * rewrite lookup_insert_ne in Hq by done. eauto.
    + intros o1 o2 q H1 H2 Hq0.
      destruct (decide (o = o1)) as [E1|Ho1];
        [subst o1; rewrite lookup_insert_eq in H1; congruence|].
      destruct (decide (o = o2)) as [E2|Ho2];
        [subst o2; rewrite lookup_insert_eq in H2; congruence|].
      rewrite lookup_insert_ne in H1, H2 by done. eauto.
    + by apply Hfree.
    + by apply Hfree.
  - destruct (wf_live w o _ Hwf eq_refl E) as [i Hi].
    rewrite (nativeClose_live _ _ _ _ eq_refl E Hi) in Hclose.
    injection Hclose as <-.
    pose proof (handle_nonnull _ _ _ eq_refl E) as Ho.
    unfold wf_world. simpl. repeat split; try done.
    + rewrite lookup_delete_ne; done.
    + intros o' q Hq Hq0. destruct (decide (o = o')) as [Eo|Hoo].
      * subst o'. rewrite lookup_insert_eq in Hq. congruence.
      * rewrite lookup_insert_ne in Hq by done.
        rewrite lookup_delete_ne; [eauto|].
        intros Heq. apply Hoo. apply (Hinj o o' q); [|done|done].
        rewrite Ho. f_equal. exact Heq.
    + intros o1 o2 q H1 H2 Hq0.
      destruct (decide (o = o1)) as [E1|Ho1];
        [subst o1; rewrite lookup_insert_eq in H1; congruence|].
      destruct (decide (o = o2)) as [E2|Ho2];
        [subst o2; rewrite lookup_insert_eq in H2; congruence|].
      rewrite lookup_insert_ne in H1, H2 by done. eauto.
    + by apply Hfree.
    + apply lookup_delete_None. right. by apply Hfree.
Qed.

Lemma nativeIsSpeech_wf o frame w w' d :
  wf_world w → nativeIsSpeech L o frame w = Ret d w' → wf_world w'.
Proof.
  intros Hwf Hcall.
  pose proof Hwf as (H0 & Hlive & Hinj & Hnd & Hfree).
  destruct (decide (handle w o = nullptr)) as [E|E].
  - rewrite (nativeIsSpeech_null _ _ _ E) in Hcall. discriminate.
  - destruct (wf_live w o _ Hwf eq_refl E) as [i Hi].
    rewrite (nativeIsSpeech_live _ _ _ _ _ eq_refl E Hi) in Hcall.
    injection Hcall as _ <-.
    unfold wf_world. simpl. repeat split; try done.
    + rewrite lookup_insert_ne; done.
    + intros o' q Hq Hq0. apply lookup_insert_is_Some'. eauto.
    + by apply Hfree.
    + destruct (Hfree p) as [? Hnone]; [done|].
      rewrite lookup_insert_ne; [done|]. congruence.
Qed.

End Invariant.

(** ** The reference detector meets the specification's description *)

Lemma RefVad_rejects_bad_frames raw hold checked :
  rejects_bad_frames (RefVad.lib raw hold checked) RefVad.rate.
Proof.
  intros i frame Hlen. simpl. unfold RefVad.ref_process.
  rewrite Hlen. reflexivity.
Qed.

Lemma RefVad_adopts_rate raw hold checked :
  adopts_rate (RefVad.lib raw hold checked) RefVad.rate.
Proof.
  split.
  - intros i r Hr. simpl. unfold RefVad.ref_set_sample_rate.
    rewrite Hr. done.
  - intros i m. simpl. unfold RefVad.ref_set_mode.
    destruct (supported_mode m); reflexivity.
Qed.

(** ** Opening *)

Section Open.

Context {L : FvadLib}.
Implicit Types (w : world L) (o : jobject) (p : ptr).

(** C1, as amended.  [nativeOpen] has no way to refuse a configuration: for
    every sample rate and every mode, supported or not, a call whose
    allocation succeeds returns normally, the status codes of the two
    setters are dropped, the new handle is stored in the object and
    [nativeIsOpen] answers true. *)
Theorem nativeOpen_never_rejects o sampleRate mode w p rest :
  supply w = p :: rest → p ≠ nullptr →
  ∃ w', nativeOpen L o sampleRate mode w = Ret tt w' ∧
        handle w' o = p ∧
        heap w' !! p = Some (configured sampleRate mode) ∧
        nativeIsOpen L o w' = Ret true w'.
Proof.
  intros Hs Hp. eexists. split; [by apply nativeOpen_ok|].
  split; [apply handle_insert_eq|].
  split; [simpl; apply lookup_insert_eq|].
  rewrite nativeIsOpen_eq, handle_insert_eq.
  by rewrite bool_decide_eq_true_2.
Qed.

(** [nativeOpen] returns only when the allocation succeeded. *)
Lemma nativeOpen_returns o sampleRate mode w w' :
  nativeOpen L o sampleRate mode w = Ret tt w' →
  ∃ p rest, supply w = p :: rest ∧ p ≠ nullptr.
Proof.
  intros H. destruct (supply w) as [|p rest] eqn:Hs.
  - rewrite (nativeOpen_exhausted _ _ _ _ Hs) in H. discriminate.
  - exists p, rest. split; [done|]. intros ->.
    unfold nativeOpen, bind, fvad_new in H. rewrite Hs in H.
    unfold fvad_set_sample_rate, on_inst in H.
    destruct (decide (nullptr = nullptr)); [discriminate|done].
Qed.

End Open.

(** C1, witness: a supported configuration on a fresh state. *)
Lemma nativeOpen_never_rejects_witness :
  ∃ w', nativeOpen RefVad.plain 1%positive 16000 2 (world0 [4096]) = Ret tt w' ∧
        handle w' 1%positive = 4096 ∧
        heap w' !! 4096
        = Some (configured (L := RefVad.plain) 16000 2) ∧
        nativeIsOpen RefVad.plain 1%positive w' = Ret true w'.
Proof.
  apply (nativeOpen_never_rejects (L := RefVad.plain)
           1%positive 16000 2 (world0 [4096]) 4096 []).
  - reflexivity.
  - unfold nullptr. lia.
Defined.

(** C1, counterexample.  44100 Hz is not a supported rate and 7 is not a
    supported mode; the library refuses both with -1, and still [nativeOpen]
    returns and leaves the object open. *)
Lemma nativeOpen_unsupported_opens :
  supported_rate 44100 = false ∧
  supported_mode 7 = false ∧
  (set_sample_rate RefVad.plain (fvad_init RefVad.plain) 44100).2 = -1 ∧
  (set_mode RefVad.plain (fvad_init RefVad.plain) 7).2 = -1 ∧
  returned (nativeOpen RefVad.plain 1%positive 44100 7 (world0 [4096]))
  = Some tt ∧
  returned ((run nativeOpen RefVad.plain 1%positive 44100 7 in
             nativeIsOpen RefVad.plain 1%positive) (world0 [4096]))
  = Some true.
Proof. vm_compute. repeat split; reflexivity. Qed.

(** ** Classifying a frame *)

Section Classify.

Context {L : FvadLib}.
Implicit Types (w : world L) (o : jobject) (p : ptr).

Lemma world_eta w :
  {| fields := fields w; heap := heap w; supply := supply w |} = w.
Proof. by destruct w. Qed.

(** A rejected frame: the library's -1 is returned and nothing changes. *)
Lemma nativeIsSpeech_rejected (rate_of : Inst L → Z) o frame w i :
  rejects_bad_frames L rate_of →
  handle w o ≠ nullptr →
  heap w !! handle w o = Some i →
  valid_length (rate_of i) (length frame) = false →
  nativeIsSpeech L o frame w = Ret (-1) w.
Proof.
  intros Hlib Hp Hi Hlen.
  rewrite (nativeIsSpeech_live o frame w _ i eq_refl Hp Hi).
  rewrite Hlib by (by rewrite length_map). simpl.
  rewrite (insert_id _ _ _ Hi). by rewrite world_eta.
Qed.

(** C2.  On an open detector, a frame whose length is none of the supported
    durations at the instance's rate makes [nativeIsSpeech] return the
    library's -1, which is neither decision, and the state after the call is
    the state before it; the calls that follow give what they give in a run
    without the bad frame. *)
Theorem nativeIsSpeech_bad_frame (rate_of : Inst L → Z) o frame w i :
  rejects_bad_frames L rate_of →
  handle w o ≠ nullptr →
  heap w !! handle w o = Some i →
  valid_length (rate_of i) (length frame) = false →
  nativeIsSpeech L o frame w = Ret (-1) w ∧
  ∀ frames,
    classify_all o (frame :: frames) w
    = match classify_all o frames w with
      | Ret ds w' => Ret (-1 :: ds) w'
      | Crash c => Crash c
      end.
Proof.
  intros Hlib Hp Hi Hlen.
  pose proof (nativeIsSpeech_rejected rate_of o frame w i Hlib Hp Hi Hlen)
    as Hcall.
  split; [exact Hcall|].
  intros frames. simpl. unfold bind at 1. rewrite Hcall.
  unfold bind. destruct (classify_all o frames w); reflexivity.
Qed.

(** The rate a detector opened with a supported rate is configured for. *)
Lemma configured_rate (rate_of : Inst L → Z) sampleRate mode :
  adopts_rate L rate_of →
  supported_rate sampleRate = true →
  rate_of (configured sampleRate mode) = sampleRate.
Proof.
  intros [Hrate Hmode] Hs. unfold configured.
  rewrite Hmode. by apply Hrate.
Qed.

(** C3, as amended.  [nativeIsSpeech] does not look at the handle before
    it passes it on.  On an object that was never opened, or that was
    closed, the handle is null and the call does not return: no error value
    reaches the caller.  The process is aborted when the library checks its
    instance, and the behaviour is undefined when it does not. *)
Theorem nativeIsSpeech_not_open o frame w :
  handle w o = nullptr ∨ (∃ w0, nativeClose L o w0 = Ret tt w) →
  nativeIsSpeech L o frame w
  = Crash (if assert_inst L then Abort else Undefined) ∧
  returned (nativeIsSpeech L o frame w) = None.
Proof.
  intros Hnull.
  assert (Hh : handle w o = nullptr).
  { destruct Hnull as [Hh|[w0 Hc]]; [done|].
    apply nativeClose_returns in Hc as [Hf _].
    unfold handle. rewrite Hf. by rewrite lookup_insert_eq. }
  rewrite (nativeIsSpeech_null _ _ _ Hh). done.
Qed.

End Classify.

(** C2, witness: a detector at 16 kHz is given 100 samples. *)
Lemma nativeIsSpeech_bad_frame_witness :
  nativeIsSpeech RefVad.plain 1%positive (tone 100)
    (example_world RefVad.plain busy)
  = Ret (-1) (example_world RefVad.plain busy).
Proof.
  apply (nativeIsSpeech_bad_frame (L := RefVad.plain) RefVad.rate
           1%positive (tone 100) (example_world RefVad.plain busy) busy).
  - apply RefVad_rejects_bad_frames.
  - vm_compute. discriminate.
  - reflexivity.
  - reflexivity.
Defined.

(** C3, witness: an object that was never opened. *)
Lemma nativeIsSpeech_not_open_witness :
  nativeIsSpeech RefVad.strict 1%positive (silence 160) (world0 [4096])
  = Crash Abort ∧
  returned (nativeIsSpeech RefVad.strict 1%positive (silence 160)
              (world0 [4096])) = None.
Proof.
  apply (nativeIsSpeech_not_open (L := RefVad.strict)
           1%positive (silence 160) (world0 [4096])).
  left. reflexivity.
Defined.

(** C3, counterexample.  With a library that does not check its instance,
    classifying on a never-opened object, and on an object that was opened
    and closed, is a use of the null pointer: undefined, and not an error
    reported to the caller. *)
Lemma nativeIsSpeech_null_undefined :
  nativeIsSpeech RefVad.plain 1%positive (silence 160) (world0 [4096])
  = Crash Undefined ∧
  (run nativeOpen RefVad.plain 1%positive 16000 2 in
   run nativeClose RefVad.plain 1%positive in
   nativeIsSpeech RefVad.plain 1%positive (silence 160)) (world0 [4096])
  = Crash Undefined.
Proof. split; reflexivity. Qed.

(** ** Closing, and the life cycle *)

Section Lifecycle.

Context {L : FvadLib}.
Implicit Types (w : world L) (o : jobject) (p : ptr).

(** C4, as amended.  After a close that returned, the object's handle is
    null, so a second close hands null, and never the released instance, to
    [fvad_free]: nothing is released twice and the call is never undefined.
    With a library built without its instance check the second call changes
    nothing; with a library built with it the process is stopped at that
    check, and no error is returned to the caller. *)
Theorem nativeClose_twice o w w1 :
  nativeClose L o w = Ret tt w1 →
  handle w1 o = nullptr ∧
  nativeClose L o w1 = (if assert_inst L then Crash Abort else Ret tt w1) ∧
  nativeClose L o w1 ≠ Crash Undefined.
Proof.
  intros Hc. apply nativeClose_returns in Hc as [Hf _].
  assert (Hh : handle w1 o = nullptr).
  { unfold handle. rewrite Hf. by rewrite lookup_insert_eq. }
  split; [done|].
  rewrite (nativeClose_null _ _ Hh).
  destruct (assert_inst L); [done|].
  assert (Hid : <[o := nullptr]> (fields w1) = fields w1).
  { rewrite Hf. apply insert_insert_eq. }
  rewrite Hid, world_eta. done.
Qed.

(** A call on one object leaves the handle of every other object alone. *)
Lemma exec_handle o c w w' :
  exec c w = Ret tt w' →
  bool_decide (handle w' o ≠ nullptr)
  = lifecycle_step o (bool_decide (handle w o ≠ nullptr)) c.
Proof.
  destruct c as [o' sr m|o'|o'|o' frame]; simpl; intros H.
  - destruct (nativeOpen_returns _ _ _ _ _ H) as (p & rest & Hs & Hp).
    rewrite (nativeOpen_ok _ _ _ _ _ _ Hs Hp) in H. injection H as <-.
    destruct (decide (o' = o)) as [->|Hne].
    + rewrite handle_insert_eq. by apply bool_decide_eq_true_2.
    + by rewrite (handle_insert_ne o' o p _ _ (heap w) _ (supply w) Hne),
        <- (world_eta w).
  - apply nativeClose_returns in H as [Hf _].
    unfold handle. rewrite Hf.
    destruct (decide (o' = o)) as [->|Hne].
    + rewrite lookup_insert_eq. done.
    + by rewrite lookup_insert_ne.
  - unfold bind in H. rewrite nativeIsOpen_eq in H. injection H as <-. done.
  - unfold bind in H.
    unfold nativeIsSpeech, bind, getPointerToVadObject, fvad_process, on_inst
      in H.
    destruct (decide _); [discriminate|].
    destruct (heap w !! _); [|discriminate].
    injection H as <-. done.
Qed.

Lemma exec_wf c w w' : wf_world w → exec c w = Ret tt w' → wf_world w'.
Proof.
  destruct c as [o' sr m|o'|o'|o' frame]; simpl; intros Hwf H.
  - by eapply nativeOpen_wf.
  - by eapply nativeClose_wf.
  - unfold bind in H. rewrite nativeIsOpen_eq in H. by injection H as <-.
  - unfold bind in H.
    destruct (nativeIsSpeech L o' frame w) as [d w''|] eqn:E; [|discriminate].
    injection H as <-. by eapply nativeIsSpeech_wf.
Qed.

Lemma exec_all_wf cs w w' :
  wf_world w → exec_all cs w = Ret tt w' → wf_world w'.
Proof.
  revert w. induction cs as [|c cs IH]; simpl; intros w Hwf H.
  - by injection H as <-.
  - unfold bind in H. destruct (exec c w) as [[] w1|] eqn:E; [|discriminate].
    eapply IH; [|exact H]. by eapply exec_wf.
Qed.

Lemma exec_all_handle o cs w w' :
  exec_all cs w = Ret tt w' →
  bool_decide (handle w' o ≠ nullptr)
  = lifecycle o (bool_decide (handle w o ≠ nullptr)) cs.
Proof.
  unfold lifecycle. revert w.
  induction cs as [|c cs IH]; simpl; intros w H.
  - by injection H as <-.
  - unfold bind in H. destruct (exec c w) as [[] w1|] eqn:E; [|discriminate].
    rewrite (IH _ H). f_equal. by apply exec_handle.
Qed.

(** In a well-formed state the stored handle is non-null exactly when it
    is a live instance. *)
Lemma wf_handle_live w o :
  wf_world w → (handle w o ≠ nullptr ↔ is_Some (heap w !! handle w o)).
Proof.
  intros Hwf. split.
  - intros Hp. by eapply wf_live.
  - intros [i Hi] Hp. destruct Hwf as (H0 & _).
    rewrite Hp in Hi. congruence.
Qed.

(** C5.  Through any program of native calls that runs to its end,
    [nativeIsOpen] follows the life cycle of the object: true when its last
    open-or-close call was an open, false when it was a close, and as before
    the program when there was none; and its answer is true exactly when
    the stored handle is a live instance. *)
Theorem nativeIsOpen_lifecycle o cs w w' :
  wf_world w →
  exec_all cs w = Ret tt w' →
  nativeIsOpen L o w'
  = Ret (lifecycle o (bool_decide (handle w o ≠ nullptr)) cs) w' ∧
  (nativeIsOpen L o w' = Ret true w' ↔ is_Some (heap w' !! handle w' o)).
Proof.
  intros Hwf Hrun.
  pose proof (exec_all_wf _ _ _ Hwf Hrun) as Hwf'.
  rewrite nativeIsOpen_eq, (exec_all_handle o cs w w' Hrun).
  split; [done|].
  rewrite <- (exec_all_handle o cs w w' Hrun).
  rewrite <- (wf_handle_live w' o Hwf').
  split.
  - intros H. injection H as H. exact (proj1 (bool_decide_eq_true _) H).
  - intros H. by rewrite (bool_decide_eq_true_2 _ H).
Qed.

(** The two ends of the life cycle, call by call. *)
Lemma nativeIsOpen_after_open o sampleRate mode w w' :
  nativeOpen L o sampleRate mode w = Ret tt w' →
  nativeIsOpen L o w' = Ret true w'.
Proof.
  intros H.
  destruct (nativeOpen_returns _ _ _ _ _ H) as (p & rest & Hs & Hp).
  rewrite (nativeOpen_ok _ _ _ _ _ _ Hs Hp) in H. injection H as <-.
  rewrite nativeIsOpen_eq, handle_insert_eq.
  by rewrite bool_decide_eq_true_2.
Qed.

Lemma nativeIsOpen_after_close o w w' :
  nativeClose L o w = Ret tt w' →
  nativeIsOpen L o w' = Ret false w'.
Proof.
  intros H. apply nativeClose_returns in H as [Hf _].
  rewrite nativeIsOpen_eq. unfold handle. rewrite Hf, lookup_insert_eq.
  done.
Qed.

End Lifecycle.

Lemma example_world_wf (L : FvadLib) (i : Inst L) :
  wf_world (example_world L i).
Proof.
  unfold wf_world, example_world. simpl. repeat split.
  - intros o p Hp _. apply lookup_singleton_Some in Hp as [_ <-].
    rewrite lookup_singleton_eq. eauto.
  - intros o1 o2 p H1 H2 _.
    apply lookup_singleton_Some in H1 as [<- _].
    apply lookup_singleton_Some in H2 as [<- _]. done.
  - apply NoDup_singleton.
  - apply list_elem_of_singleton in H as ->. done.
  - apply list_elem_of_singleton in H as ->. done.
Qed.

(** C4, witness: an open detector is closed, and closed again. *)
Lemma nativeClose_twice_witness :
  handle (example_closed RefVad.plain) 1%positive = nullptr ∧
  nativeClose RefVad.plain 1%positive (example_closed RefVad.plain)
  = Ret tt (example_closed RefVad.plain) ∧
  nativeClose RefVad.plain 1%positive (example_closed RefVad.plain)
  ≠ Crash Undefined.
Proof.
  apply (nativeClose_twice (L := RefVad.plain) 1%positive
           (example_world RefVad.plain busy) (example_closed RefVad.plain)).
  reflexivity.
Defined.

(** C4, counterexample.  With a library that checks its instance, the first
    close of an open detector returns and the second stops the process: it
    is not a call that changes nothing, and no error comes back to the
    caller. *)
Lemma nativeClose_twice_aborts :
  nativeClose RefVad.strict 1%positive (example_world RefVad.strict busy)
  = Ret tt (example_closed RefVad.strict) ∧
  nativeClose RefVad.strict 1%positive (example_closed RefVad.strict)
  = Crash Abort ∧
  returned (nativeClose RefVad.strict 1%positive (example_closed RefVad.strict))
  = None.
Proof. repeat split; reflexivity. Qed.

(** C5, witness: object 2 is opened, object 1 classifies a frame and is
    closed; object 1 is then reported closed. *)
Lemma nativeIsOpen_lifecycle_witness :
  ∃ w',
    exec_all [CallOpen 2%positive 8000 0; CallIsSpeech 1%positive (tone 160);
              CallClose 1%positive; CallIsOpen 1%positive]
      (example_world RefVad.plain busy) = Ret tt w' ∧
    nativeIsOpen RefVad.plain 1%positive w' = Ret false w'.
Proof.
  eexists. split; [reflexivity|].
  eapply (nativeIsOpen_lifecycle (L := RefVad.plain) 1%positive
            [CallOpen 2%positive 8000 0; CallIsSpeech 1%positive (tone 160);
             CallClose 1%positive; CallIsOpen 1%positive]
            (example_world RefVad.plain busy)).
  - apply example_world_wf.
  - reflexivity.
Defined.

(** ** Streams of frames and independent detectors *)

Section Streams.

Context {L : FvadLib}.
Implicit Types (w : world L) (o : jobject) (p : ptr) (i : Inst L).

(** A stream fed to an open detector gives what the library gives on its
    instance, and touches that instance only. *)
Lemma classify_all_live frames : ∀ w o p i,
  handle w o = p → p ≠ nullptr → heap w !! p = Some i →
  classify_all o frames w
  = Ret (decisions i (map (map to_int16) frames))
        {| fields := fields w;
           heap := <[p := final i (map (map to_int16) frames)]> (heap w);
           supply := supply w |}.
Proof.
  induction frames as [|f fs IH]; intros w o p i Hh Hp Hi; simpl.
  - unfold ret. by rewrite (insert_id _ _ _ Hi), world_eta.
  - unfold bind at 1.
    rewrite (nativeIsSpeech_live o f w p i Hh Hp Hi).
    unfold bind at 1.
    erewrite IH; [|exact Hh|exact Hp|simpl; apply lookup_insert_eq].
    simpl. by rewrite insert_insert_eq.
Qed.

Lemma insert_twice_each (h : gmap ptr (Inst L)) p1 p2 a b c d :
  p1 ≠ p2 →
  <[p2 := a]> (<[p1 := b]> (<[p2 := c]> (<[p1 := d]> h)))
  = <[p2 := a]> (<[p1 := b]> h).
Proof.
  intros Hne. apply map_eq. intros q.
  destruct (decide (p2 = q)) as [E2|N2].
  - subst q. by rewrite !lookup_insert_eq.
  - destruct (decide (p1 = q)) as [E1|N1].
    + subst q. rewrite !(lookup_insert_ne _ p2 p1) by done.
      by rewrite !lookup_insert_eq.
    + repeat (rewrite lookup_insert_ne by done). done.
Qed.

(** The same for two detectors fed in turn. *)
Lemma classify_pair_live frames : ∀ w o1 o2 p1 p2 i1 i2,
  handle w o1 = p1 → handle w o2 = p2 →
  p1 ≠ nullptr → p2 ≠ nullptr → p1 ≠ p2 →
  heap w !! p1 = Some i1 → heap w !! p2 = Some i2 →
  classify_pair o1 o2 frames w
  = Ret (zip (decisions i1 (map (map to_int16) frames))
             (decisions i2 (map (map to_int16) frames)))
        {| fields := fields w;
           heap := <[p2 := final i2 (map (map to_int16) frames)]>
                     (<[p1 := final i1 (map (map to_int16) frames)]> (heap w));
           supply := supply w |}.
Proof.
  induction frames as [|f fs IH];
    intros w o1 o2 p1 p2 i1 i2 Hh1 Hh2 Hp1 Hp2 Hne Hi1 Hi2; simpl.
  - unfold ret.
    rewrite (insert_id _ _ _ Hi1), (insert_id _ _ _ Hi2). by rewrite world_eta.
  - unfold bind at 1.
    rewrite (nativeIsSpeech_live o1 f w p1 i1 Hh1 Hp1 Hi1).
    unfold bind at 1.
    erewrite (nativeIsSpeech_live o2 f _ p2 i2);
      [|exact Hh2|exact Hp2|simpl; by rewrite lookup_insert_ne].
    unfold bind at 1.
    erewrite (IH _ o1 o2 p1 p2); [|exact Hh1|exact Hh2|done|done|done|..].
    + simpl. by rewrite (insert_twice_each (heap w) p1 p2).
    + simpl. rewrite lookup_insert_ne by done. apply lookup_insert_eq.
    + simpl. apply lookup_insert_eq.
Qed.

(** A stream fed right after an open gives the results of the library on
    the configured instance. *)
Lemma classify_after_open o sampleRate mode frames w w' :
  nativeOpen L o sampleRate mode w = Ret tt w' →
  returned (classify_all o frames w')
  = Some (decisions (L := L) (configured sampleRate mode)
            (map (map to_int16) frames)).
Proof.
  intros H.
  destruct (nativeOpen_returns _ _ _ _ _ H) as (p & rest & Hs & Hp).
  rewrite (nativeOpen_ok _ _ _ _ _ _ Hs Hp) in H. injection H as <-.
  erewrite (classify_all_live frames _ o p);
    [reflexivity|apply handle_insert_eq|exact Hp|simpl; apply lookup_insert_eq].
Qed.

(** Two objects opened one after the other in one state, fed one stream
    after the other, or frame by frame in turn. *)
Lemma classify_side_by_side o1 o2 sampleRate mode frames w p1 p2 rest :
  o1 ≠ o2 →
  wf_world w →
  supply w = p1 :: p2 :: rest →
  ∃ w2 ds wa wb wc,
    (run nativeOpen L o1 sampleRate mode in
     nativeOpen L o2 sampleRate mode) w = Ret tt w2 ∧
    ds = decisions (L := L) (configured sampleRate mode)
           (map (map to_int16) frames) ∧
    classify_all o1 frames w2 = Ret ds wa ∧
    classify_all o2 frames wa = Ret ds wb ∧
    classify_pair o1 o2 frames w2 = Ret (zip ds ds) wc.
Proof.
  intros Hoo Hwf Hs.
  pose proof Hwf as (_ & _ & _ & Hnd & Hfree).
  rewrite Hs in Hnd, Hfree.
  destruct (Hfree p1) as [Hp1 _]; [left|].
  destruct (Hfree p2) as [Hp2 _]; [right; left|].
  assert (Hne : p1 ≠ p2).
  { apply NoDup_cons in Hnd as [Hnotin _]. intros ->. apply Hnotin. left. }
  set (c := configured (L := L) sampleRate mode).
  set (w1 := {| fields := <[o1 := p1]> (fields w);
                heap := <[p1 := c]> (heap w);
                supply := p2 :: rest |}).
  set (w2 := {| fields := <[o2 := p2]> (fields w1);
                heap := <[p2 := c]> (heap w1);
                supply := rest |}).
  assert (Hopen : (run nativeOpen L o1 sampleRate mode in
                   nativeOpen L o2 sampleRate mode) w = Ret tt w2).
  { unfold bind. rewrite (nativeOpen_ok o1 sampleRate mode w p1 _ Hs Hp1).
    fold c. fold w1.
    by rewrite (nativeOpen_ok o2 sampleRate mode w1 p2 rest eq_refl Hp2). }
  assert (Hh1 : handle w2 o1 = p1).
  { unfold handle, w2, w1. simpl.
    rewrite lookup_insert_ne by done. by rewrite lookup_insert_eq. }
  assert (Hh2 : handle w2 o2 = p2).
  { unfold handle, w2. simpl. by rewrite lookup_insert_eq. }
  assert (Hi1 : heap w2 !! p1 = Some c).
  { unfold w2, w1. simpl.
    rewrite lookup_insert_ne by done. by rewrite lookup_insert_eq. }
  assert (Hi2 : heap w2 !! p2 = Some c).
  { unfold w2. simpl. by rewrite lookup_insert_eq. }
  eexists w2, _, _, _, _.
  split; [exact Hopen|]. split; [reflexivity|].
  split; [exact (classify_all_live frames w2 o1 p1 c Hh1 Hp1 Hi1)|].
  split.
  - apply (classify_all_live frames _ o2 p2 c); [exact Hh2|exact Hp2|].
    simpl. rewrite lookup_insert_ne by done. exact Hi2.
  - exact (classify_pair_live frames w2 o1 o2 p1 p2 c c
             Hh1 Hh2 Hp1 Hp2 Hne Hi1 Hi2).
Qed.

(** C6.  Two detectors opened with the same sample rate and mode and fed
    the same frames in the same order give the same sequence of results,
    the one the library computes from the configured instance.  This holds
    for any two opens, in whatever states they happen (first part), and for
    two objects that live side by side in one state, whether the first
    stream is run to its end before the second starts or the two are fed
    frame by frame in turn (second part). *)
Theorem classify_deterministic o1 o2 sampleRate mode frames :
  (∀ wA wA' wB wB',
     nativeOpen L o1 sampleRate mode wA = Ret tt wA' →
     nativeOpen L o2 sampleRate mode wB = Ret tt wB' →
     returned (classify_all o1 frames wA')
     = returned (classify_all o2 frames wB') ∧
     is_Some (returned (classify_all o1 frames wA'))) ∧
  (∀ w p1 p2 rest,
     o1 ≠ o2 → wf_world w → supply w = p1 :: p2 :: rest →
     ∃ w2 ds wa wb wc,
       (run nativeOpen L o1 sampleRate mode in
        nativeOpen L o2 sampleRate mode) w = Ret tt w2 ∧
       classify_all o1 frames w2 = Ret ds wa ∧
       classify_all o2 frames wa = Ret ds wb ∧
       classify_pair o1 o2 frames w2 = Ret (zip ds ds) wc).
Proof.
  split.
  - intros wA wA' wB wB' HA HB.
    rewrite (classify_after_open o1 sampleRate mode frames wA wA' HA).
    rewrite (classify_after_open o2 sampleRate mode frames wB wB' HB).
    split; [reflexivity|eauto].
  - intros w p1 p2 rest Hoo Hwf Hs.
    destruct (classify_side_by_side o1 o2 sampleRate mode frames w p1 p2 rest
                Hoo Hwf Hs) as (w2 & ds & wa & wb & wc & H1 & _ & H2 & H3 & H4).
    by exists w2, ds, wa, wb, wc.
Qed.

End Streams.

(** C6, witness: objects 1 and 2 are opened at 8 kHz, mode 1, and hear a
    tone, a pause, a frame of the wrong size and a tone; first in two
    separate states, then side by side. *)
Lemma classify_deterministic_witness :
  returned (classify_all (L := RefVad.plain) 1%positive
              [tone 80; silence 80; tone 100; tone 240]
              {| fields := {[ 1%positive := 4096 ]};
                 heap := {[ 4096 := configured (L := RefVad.plain) 8000 1 ]};
                 supply := [] |})
  = returned (classify_all (L := RefVad.plain) 2%positive
                [tone 80; silence 80; tone 100; tone 240]
                {| fields := {[ 1%positive := 4096; 2%positive := 8192 ]};
                   heap := {[ 4096 := busy;
                              8192 := configured (L := RefVad.plain) 8000 1 ]};
                   supply := [] |}) ∧
  ∃ w2 ds wa wb wc,
    (run nativeOpen RefVad.plain 1%positive 8000 1 in
     nativeOpen RefVad.plain 2%positive 8000 1) (world0 [4096; 8192])
    = Ret tt w2 ∧
    classify_all 1%positive [tone 80; silence 80; tone 100; tone 240] w2
    = Ret ds wa ∧
    classify_all 2%positive [tone 80; silence 80; tone 100; tone 240] wa
    = Ret ds wb ∧
    classify_pair 1%positive 2%positive
      [tone 80; silence 80; tone 100; tone 240] w2
    = Ret (zip ds ds) wc.
Proof.
  pose proof (classify_deterministic (L := RefVad.plain) 1%positive 2%positive
                8000 1 [tone 80; silence 80; tone 100; tone 240]) as [HA HB].
  split.
  - apply (HA (world0 [4096]) _ (example_world RefVad.plain busy) _);
      reflexivity.
  - apply (HB (world0 [4096; 8192]) 4096 8192 []).
    + done.
    + apply wf_world0.
      * apply NoDup_cons. split; [|apply NoDup_singleton].
        intros H. apply list_elem_of_singleton in H. discriminate.
      * unfold nullptr. intros H.
        apply elem_of_cons in H as [H|H]; [discriminate|].
        apply list_elem_of_singleton in H. discriminate.
    + reflexivity.
Defined.

(** ** The hangover automaton *)

Lemma hang_step_speech max s : hang_step max s true = SPEECH.
Proof. destruct s as [| |[|n]]; reflexivity. Qed.

Lemma hang_run_speech max n : ∀ s,
  hang_run max s (replicate n true) = replicate n true.
Proof.
  induction n as [|n IH]; intros s; simpl; [done|].
  rewrite hang_step_speech. simpl. by rewrite IH.
Qed.

Lemma hang_end_speech max n s :
  hang_end max s (replicate (S n) true) = SPEECH.
Proof.
  simpl. rewrite hang_step_speech. clear s.
  induction n as [|n IH]; simpl; done.
Qed.

Lemma hang_run_app max raws1 raws2 : ∀ s,
  hang_run max s (raws1 ++ raws2)
  = hang_run max s raws1 ++ hang_run max (hang_end max s raws1) raws2.
Proof.
  induction raws1 as [|r rs IH]; intros s; simpl; [done|].
  by rewrite IH.
Qed.

Lemma hang_end_app max raws1 raws2 : ∀ s,
  hang_end max (hang_end max s raws1) raws2 = hang_end max s (raws1 ++ raws2).
Proof.
  induction raws1 as [|r rs IH]; intros s; simpl; [done|].
  by rewrite IH.
Qed.

(** C7.  The hangover automaton emits speech in every HOLDING(n).  Run
    from any state, SILENCE included, over N > 0 raw speech verdicts, one
    raw non-speech verdict and M more raw speech verdicts, it emits speech
    at every frame: the single non-speech verdict takes it from SPEECH to
    HOLDING(max), where speech is still emitted, and the next verdict takes
    it back to SPEECH. *)
Theorem hangover_bridges_dropout (max N M : nat) (s : hangover) :
  (0 < N)%nat →
  (∀ n, emit (HOLDING n) = true) ∧
  hang_end max s (replicate N true) = SPEECH ∧
  hang_end max s (replicate N true ++ [false]) = HOLDING max ∧
  hang_run max s (replicate N true ++ false :: replicate M true)
  = replicate (N + 1 + M) true.
Proof.
  intros HN. destruct N as [|N]; [lia|].
  split; [done|].
  split; [apply hang_end_speech|].
  split.
  - rewrite <- hang_end_app, hang_end_speech. done.
  - rewrite hang_run_app, hang_run_speech, hang_end_speech. simpl.
    rewrite hang_run_speech.
    rewrite !replicate_add, <- app_assoc. done.
Qed.

(** C7, witness: two frames of speech, a dropout, three frames of speech,
    from SILENCE with a hold of 2. *)
Lemma hangover_bridges_dropout_witness :
  hang_run 2 SILENCE [true; true; false; true; true; true]
  = [true; true; true; true; true; true].
Proof.
  apply (hangover_bridges_dropout 2 2 3 SILENCE). lia.
Defined.

Lemma map_replicate {A B} (f : A → B) (n : nat) (x : A) :
  map f (replicate n x) = replicate n (f x).
Proof. induction n as [|n IH]; simpl; [done|]. by rewrite IH. Qed.

(** The results of the reference detector are the emissions of its
    hangover automaton over the raw verdicts of the frames it accepts. *)
Lemma RefVad_decisions raw hold checked frames : ∀ i,
  Forall (λ f, valid_length (RefVad.rate i) (length f) = true) frames →
  decisions (L := RefVad.lib raw hold checked) i frames
  = map (λ b : bool, if b then 1 else 0)
      (hang_run (hold (RefVad.mode i)) (RefVad.hang i)
         (map (raw (RefVad.mode i)) frames)).
Proof.
  induction frames as [|f fs IH]; intros i Hall; simpl; [done|].
  apply Forall_cons in Hall as [Hf Hfs].
  unfold RefVad.ref_process. rewrite Hf. simpl.
  f_equal. rewrite IH by done. done.
Qed.

(** Through the wrapper: a stream with a single raw dropout between raw
    speech is reported as speech at every frame. *)
Lemma RefVad_classify_bridges raw hold checked o frames w i N M :
  handle w o ≠ nullptr →
  heap w !! handle w o = Some i →
  Forall (λ f, valid_length (RefVad.rate i) (length f) = true) frames →
  map (raw (RefVad.mode i)) (map (map to_int16) frames)
  = replicate N true ++ false :: replicate M true →
  (0 < N)%nat →
  returned (classify_all (L := RefVad.lib raw hold checked) o frames w)
  = Some (replicate (N + 1 + M) 1).
Proof.
  intros Hp Hi Hall Hraw HN.
  rewrite (classify_all_live (L := RefVad.lib raw hold checked)
             frames w o _ i eq_refl Hp Hi). simpl. f_equal.
  rewrite RefVad_decisions.
  - rewrite Hraw.
    destruct N as [|N]; [lia|].
    rewrite hang_run_app, hang_run_speech, hang_end_speech. simpl.
    rewrite hang_run_speech, !replicate_add, <- app_assoc, !map_app. simpl.
    rewrite !map_replicate. done.
  - apply Forall_map. eapply Forall_impl; [exact Hall|].
    intros f Hf. simpl. by rewrite length_map.
Qed.

(** ** What reaches the library, and what an open replaces *)

Lemma to_int16_wraps (x : Z) : wraps_to x (to_int16 x).
Proof. split; [apply to_int16_range|apply to_int16_mod]. Qed.

Lemma wraps_to_unique (x y : Z) : wraps_to x y → y = to_int16 x.
Proof.
  intros [Hy Hmod]. rewrite <- (to_int16_id y Hy).
  unfold to_int16. f_equal.
  rewrite <- (Zplus_mod_idemp_l y), <- (Zplus_mod_idemp_l x).
  by rewrite Hmod.
Qed.

Lemma narrow_samples_wraps (frame : list Z) :
  Forall2 wraps_to frame (narrow_samples frame).
Proof.
  rewrite narrow_samples_map.
  induction frame as [|x xs IH]; simpl; constructor.
  - apply to_int16_wraps.
  - exact IH.
Qed.

Section Handles.

Context {L : FvadLib}.
Implicit Types (w : world L) (o : jobject) (p : ptr) (i : Inst L).

(** C9.  [nativeIsSpeech] hands the library the input array with every
    element cut down to 16 bits: the result is in the range of [int16_t] and
    agrees with the input modulo 2^16.  No value makes the call fail: on an
    open detector it returns the library's answer to the cut-down frame.
    Elements in range pass unchanged; an element out of range is changed,
    and not to the nearest bound: 32768 becomes -32768 and -32769 becomes
    32767. *)
Theorem nativeIsSpeech_narrows o frame w i :
  handle w o ≠ nullptr →
  heap w !! handle w o = Some i →
  narrow_samples frame = map to_int16 frame ∧
  Forall2 wraps_to frame (narrow_samples frame) ∧
  nativeIsSpeech L o frame w
  = fvad_process L (handle w o) (narrow_samples frame) w ∧
  returned (nativeIsSpeech L o frame w)
  = Some (process L i (narrow_samples frame)).2 ∧
  Forall (λ x, if decide (is_int16 x) then to_int16 x = x
               else to_int16 x ≠ x) frame ∧
  to_int16 32768 = -32768 ∧ clamp16 32768 = 32767 ∧
  to_int16 (-32769) = 32767 ∧ clamp16 (-32769) = -32768.
Proof.
  intros Hp Hi.
  split; [apply narrow_samples_map|].
  split; [apply narrow_samples_wraps|].
  rewrite narrow_samples_map.
  split; [apply nativeIsSpeech_eq|].
  split.
  - by rewrite (nativeIsSpeech_live o frame w _ i eq_refl Hp Hi).
  - split; [|done].
    apply Forall_forall. intros x _.
    destruct (decide (is_int16 x)).
    + by apply to_int16_id.
    + by apply to_int16_changes.
Qed.

(** C10.  [nativeOpen] writes the new handle over whatever the object
    held.  From any well-formed state with an address left to allocate, on
    an object that is open as well as on one that is not, the call returns,
    [nativeIsOpen] answers true, the stored handle is the new address and
    differs from the one held before; the instance behind the earlier
    handle, like every other instance, is still allocated and unchanged:
    nothing has been released. *)
Theorem nativeOpen_overwrites o sampleRate mode w p rest :
  wf_world w →
  supply w = p :: rest →
  ∃ w',
    nativeOpen L o sampleRate mode w = Ret tt w' ∧
    nativeIsOpen L o w' = Ret true w' ∧
    handle w' o = p ∧
    handle w' o ≠ handle w o ∧
    heap w' !! handle w o = heap w !! handle w o ∧
    heap w ⊆ heap w'.
Proof.
  intros Hwf Hs.
  pose proof Hwf as (H0 & _ & _ & _ & Hfree).
  destruct (Hfree p) as [Hp Hnone]; [rewrite Hs; left|].
  assert (Hold : handle w o ≠ p).
  { intros Heq. destruct (wf_live w o p Hwf Heq Hp) as [? ?]. congruence. }
  eexists. split; [by apply nativeOpen_ok|].
  rewrite nativeIsOpen_eq, handle_insert_eq. simpl.
  split; [by rewrite bool_decide_eq_true_2|].
  split; [done|]. split; [done|].
  split; [by rewrite lookup_insert_ne|].
  by apply insert_subseteq.
Qed.

End Handles.

(** C9, witness: an open detector is given two samples out of range and
    two in range. *)
Lemma nativeIsSpeech_narrows_witness :
  narrow_samples [40000; -40000; 100; -32768]
  = map to_int16 [40000; -40000; 100; -32768].
Proof.
  apply (nativeIsSpeech_narrows (L := RefVad.plain) 1%positive
           [40000; -40000; 100; -32768] (example_world RefVad.plain busy) busy).
  - vm_compute. discriminate.
  - reflexivity.
Defined.

(** C10, witness: object 1 is open on address 4096 and is opened again. *)
Lemma nativeOpen_overwrites_witness :
  ∃ w',
    nativeOpen RefVad.plain 1%positive 8000 0 (example_world RefVad.plain busy)
    = Ret tt w' ∧
    nativeIsOpen RefVad.plain 1%positive w' = Ret true w' ∧
    handle w' 1%positive = 8192 ∧
    handle w' 1%positive ≠ handle (example_world RefVad.plain busy) 1%positive ∧
    heap w' !! handle (example_world RefVad.plain busy) 1%positive
    = heap (example_world RefVad.plain busy)
        !! handle (example_world RefVad.plain busy) 1%positive ∧
    heap (example_world RefVad.plain busy) ⊆ heap w'.
Proof.
  apply (nativeOpen_overwrites (L := RefVad.plain) 1%positive 8000 0
           (example_world RefVad.plain busy) 8192 []).
  - apply example_world_wf.
  - reflexivity.
Defined.

(** * Further properties of the wrapper *)

(** ** The accessors *)

Section Accessors.

Context {L : FvadLib}.
Implicit Types (w : world L) (o : jobject) (p : ptr).

(** X1.  The two accessors are a store and a load of one field per object.
    The load returns the field and changes nothing.  The store changes that
    one field only: the pointer set is the pointer read back, the field of
    another object reads as before, and the instances and the allocator are
    as before.  The last of two writes wins, and an object that was never
    written reads null. *)
Theorem pointer_set_get o o' p q w :
  o ≠ o' →
  getPointerToVadObject L o w = Ret (handle w o) w ∧
  (∃ w1, setPointerToVadObject L o p w = Ret tt w1 ∧
         getPointerToVadObject L o w1 = Ret p w1 ∧
         getPointerToVadObject L o' w1 = Ret (handle w o') w1 ∧
         heap w1 = heap w ∧ supply w1 = supply w) ∧
  (run setPointerToVadObject L o p in setPointerToVadObject L o q) w
  = setPointerToVadObject L o q w ∧
  (fields w !! o = None → getPointerToVadObject L o w = Ret nullptr w).
Proof.
  intros Hne.
  unfold bind, setPointerToVadObject, getPointerToVadObject, handle. simpl.
  split; [done|].
  split.
  - eexists. split; [reflexivity|]. simpl.
    rewrite lookup_insert_eq, lookup_insert_ne by done. done.
  - split; [by rewrite insert_insert_eq|]. by intros ->.
Qed.

End Accessors.

(** X1, witness: object 1 holds 4096, object 2 was never written. *)
Lemma pointer_set_get_witness :
  getPointerToVadObject RefVad.plain 2%positive
    (example_world RefVad.plain busy)
  = Ret nullptr (example_world RefVad.plain busy).
Proof.
  apply (pointer_set_get (L := RefVad.plain) 2%positive 1%positive 8192 0
           (example_world RefVad.plain busy)).
  - done.
  - reflexivity.
Defined.

(** ** The copy of the samples *)

(** X2.  The copy loop writes every cell of the new array: whatever the
    array held when it was allocated, after the loop it holds the input
    samples, each cut down to 16 bits, in the same order and number. *)
Theorem copy_loop_overwrites (javaArray audioSample : list Z) :
  length audioSample = length javaArray →
  copy_loop (length javaArray) 0 javaArray audioSample
  = map to_int16 javaArray ∧
  length (copy_loop (length javaArray) 0 javaArray audioSample)
  = length javaArray.
Proof.
  intros Hlen.
  rewrite (copy_loop_spec _ 0 javaArray audioSample Hlen) by lia.
  simpl. split; [done|apply length_map].
Qed.

(** X2, witness: an array that held 7, 7, 7 before the loop. *)
Lemma copy_loop_overwrites_witness :
  copy_loop 3 0 [1; 70000; -3] [7; 7; 7] = [1; 4464; -3].
Proof.
  apply (copy_loop_overwrites [1; 70000; -3] [7; 7; 7]). reflexivity.
Defined.

Lemma to_int16_same_low16 (x y : Z) :
  same_low16 x y → to_int16 x = to_int16 y.
Proof.
  unfold same_low16, to_int16. intros H. f_equal.
  rewrite <- (Zplus_mod_idemp_l x), <- (Zplus_mod_idemp_l y).
  by rewrite H.
Qed.

Lemma map_to_int16_same (f1 f2 : list Z) :
  Forall2 same_low16 f1 f2 → map to_int16 f1 = map to_int16 f2.
Proof.
  induction 1 as [|x y xs ys Hxy _ IH]; simpl; [done|].
  by rewrite (to_int16_same_low16 x y Hxy), IH.
Qed.

Lemma map_to_int16_id (frame : list Z) :
  Forall is_int16 frame → map to_int16 frame = frame.
Proof.
  induction 1 as [|x xs Hx _ IH]; simpl; [done|].
  by rewrite (to_int16_id x Hx), IH.
Qed.

Section Samples.

Context {L : FvadLib}.
Implicit Types (w : world L) (o : jobject) (p : ptr).

(** X3.  [nativeIsSpeech] cannot tell apart two frames whose samples agree
    in their low 16 bits: in every state, on every object, the two calls
    end the same way, with the same result and the same state. *)
Theorem nativeIsSpeech_low16_only o (frame1 frame2 : list Z) w :
  Forall2 same_low16 frame1 frame2 →
  nativeIsSpeech L o frame1 w = nativeIsSpeech L o frame2 w.
Proof.
  intros H. rewrite !nativeIsSpeech_eq.
  by rewrite (map_to_int16_same frame1 frame2 H).
Qed.

(** X4.  A frame of genuine 16-bit samples reaches the library as it is:
    the array handed to [fvad_process] is the input array. *)
Theorem nativeIsSpeech_int16_exact o (frame : list Z) w :
  Forall is_int16 frame →
  narrow_samples frame = frame ∧
  nativeIsSpeech L o frame w = fvad_process L (handle w o) frame w.
Proof.
  intros H. rewrite narrow_samples_map, nativeIsSpeech_eq.
  by rewrite (map_to_int16_id frame H).
Qed.

End Samples.

(** X3, witness: a frame of 65536s is taken for silence. *)
Lemma nativeIsSpeech_low16_only_witness :
  nativeIsSpeech RefVad.plain 1%positive (replicate 160 65536)
    (example_world RefVad.plain busy)
  = nativeIsSpeech RefVad.plain 1%positive (silence 160)
      (example_world RefVad.plain busy).
Proof.
  apply (nativeIsSpeech_low16_only (L := RefVad.plain) 1%positive
           (replicate 160 65536) (silence 160)
           (example_world RefVad.plain busy)).
  apply Forall2_replicate. reflexivity.
Defined.

(** X4, witness: the extreme 16-bit values. *)
Lemma nativeIsSpeech_int16_exact_witness :
  narrow_samples [-32768; 0; 32767] = [-32768; 0; 32767].
Proof.
  apply (nativeIsSpeech_int16_exact (L := RefVad.plain) 1%positive
           [-32768; 0; 32767] (example_world RefVad.plain busy)).
  repeat constructor; unfold is_int16; lia.
Defined.

(** ** Allocation, release and the states in between *)

Section Resources.

Context {L : FvadLib}.
Implicit Types (w : world L) (o : jobject) (p : ptr) (i : Inst L).


(** X6.  Started from the state in which nothing was opened yet, with an
    allocator that hands out distinct non-null addresses, every program of
    native calls that runs to its end arrives in a state where null is not
    an instance, every handle stored in an object is null or a live
    instance, no two objects hold the same instance, and the addresses
    still to be handed out are free. *)
Theorem native_calls_keep_wf (addresses : list ptr) cs w' :
  NoDup addresses →
  nullptr ∉ addresses →
  exec_all cs (world0 (L := L) addresses) = Ret tt w' →
  wf_world w'.
Proof.
  intros Hnd H0 Hrun.
  eapply exec_all_wf; [|exact Hrun].
  by apply wf_world0.
Qed.

(** X8.  An open followed by a close of the same object gives back what
    the open allocated: in a well-formed state the instances after the two
    calls are the instances before them, the object's handle is null, and
    the allocator has moved on by one address. *)
Theorem open_close_round_trip o sampleRate mode w p rest :
  wf_world w →
  supply w = p :: rest →
  (run nativeOpen L o sampleRate mode in nativeClose L o) w
  = Ret tt {| fields := <[o := nullptr]> (fields w);
              heap := heap w;
              supply := rest |}.
Proof.
  intros Hwf Hs.
  pose proof Hwf as (_ & _ & _ & _ & Hfree).
  destruct (Hfree p) as [Hp Hnone]; [rewrite Hs; left|].
  unfold bind at 1. rewrite (nativeOpen_ok o sampleRate mode w p rest Hs Hp).
  erewrite (nativeClose_live o _ p);
    [|apply handle_insert_eq|exact Hp|simpl; apply lookup_insert_eq].
  simpl. by rewrite insert_insert_eq, (delete_insert_id _ _ _ Hnone).
Qed.

(** One call keeps an orphan instance as it is, and an orphan. *)
Lemma exec_orphan c w w' p i :
  orphan w p → heap w !! p = Some i →
  exec c w = Ret tt w' →
  orphan w' p ∧ heap w' !! p = Some i.
Proof.
  intros (Hp0 & Hno & Hsup) Hi H.
  destruct c as [o sr m|o|o|o frame]; simpl in H.
  - destruct (nativeOpen_returns _ _ _ _ _ H) as (q & rest & Hs & Hq).
    rewrite (nativeOpen_ok _ _ _ _ _ _ Hs Hq) in H. injection H as <-.
    assert (Hqp : q ≠ p).
    { intros ->. apply Hsup. rewrite Hs. left. }
    split; [split; [done|split]|].
    + intros o'. destruct (decide (o = o')) as [E|E].
      * subst o'. by rewrite handle_insert_eq.
      * rewrite (handle_insert_ne o o' q _ _ (heap w) _ (supply w) E).
        rewrite world_eta. apply Hno.
    + simpl. intros Hin. apply Hsup. rewrite Hs. by right.
    + simpl. by rewrite lookup_insert_ne.
  - pose proof (Hno o) as Hop.
    assert (Hh : heap w' !! p = heap w !! p).
    { unfold nativeClose, bind, getPointerToVadObject, fvad_free in H.
      fold (handle w o) in H.
      destruct (decide (handle w o = nullptr)).
      - destruct (assert_inst L); [discriminate|]. by injection H as <-.
      - destruct (heap w !! handle w o); [|discriminate].
        injection H as <-. simpl. by rewrite lookup_delete_ne. }
    apply nativeClose_returns in H as [Hf Hs].
    split; [split; [done|split]|].
    + intros o'. unfold handle. rewrite Hf.
      destruct (decide (o = o')) as [E|E].
      * subst o'. rewrite lookup_insert_eq. simpl. congruence.
      * rewrite lookup_insert_ne by done. apply Hno.
    + by rewrite Hs.
    + by rewrite Hh.
  - unfold bind in H. rewrite nativeIsOpen_eq in H. by injection H as <-.
  - unfold bind in H.
    destruct (nativeIsSpeech L o frame w) as [d w''|] eqn:E; [|discriminate].
    injection H as <-.
    pose proof (Hno o) as Hop.
    unfold nativeIsSpeech, bind, getPointerToVadObject, fvad_process,
      on_inst in E. fold (handle w o) in E.
    destruct (decide (handle w o = nullptr)); [discriminate|].
    destruct (heap w !! handle w o); [|discriminate].
    injection E as _ <-.
    split; [split; [done|split]|]; simpl; [exact Hno|exact Hsup|].
    by rewrite lookup_insert_ne.
Qed.

Lemma exec_all_orphan cs : ∀ w w' p i,
  orphan w p → heap w !! p = Some i →
  exec_all cs w = Ret tt w' →
  orphan w' p ∧ heap w' !! p = Some i.
Proof.
  induction cs as [|c cs IH]; simpl; intros w w' p i Ho Hi H.
  - by injection H as <-.
  - unfold bind in H. destruct (exec c w) as [[] w1|] eqn:E; [|discriminate].
    destruct (exec_orphan c w w1 p i Ho Hi E) as [Ho1 Hi1].
    by apply (IH w1 w' p i).
Qed.

(** X9.  The instance an object gives up by being opened a second time is
    lost for good: whatever native calls follow, on this object or on
    others, it stays allocated, in the state the first open left it in, no
    object holds its address, and the allocator does not hand it out
    again. *)
Theorem reopened_instance_leaks o sampleRate mode sampleRate' mode' cs
    w w' p1 p2 rest :
  wf_world w →
  supply w = p1 :: p2 :: rest →
  exec_all (CallOpen o sampleRate mode :: CallOpen o sampleRate' mode' :: cs) w
  = Ret tt w' →
  heap w' !! p1 = Some (configured sampleRate mode) ∧
  (∀ o', handle w' o' ≠ p1) ∧
  p1 ∉ supply w'.
Proof.
  intros Hwf Hs H.
  pose proof Hwf as (_ & Hlive & _ & Hnd & Hfree).
  rewrite Hs in Hnd, Hfree.
  destruct (Hfree p1) as [Hp1 Hn1]; [left|].
  destruct (Hfree p2) as [Hp2 _]; [right; left|].
  apply NoDup_cons in Hnd as [Hnotin Hnd].
  assert (Hne : p2 ≠ p1). { intros ->. apply Hnotin. left. }
  simpl in H. unfold bind at 1 in H.
  rewrite (nativeOpen_ok o sampleRate mode w p1 _ Hs Hp1) in H.
  set (w1 := {| fields := <[o := p1]> (fields w);
                heap := <[p1 := configured sampleRate mode]> (heap w);
                supply := p2 :: rest |}) in H.
  unfold bind at 1 in H.
  rewrite (nativeOpen_ok o sampleRate' mode' w1 p2 rest eq_refl Hp2) in H.
  unfold w1 in H. simpl in H.
  eapply exec_all_orphan in H.
  - destruct H as ((_ & Hno & Hsup) & Hi). eauto.
  - split; [done|]. split; simpl.
    + intros o'. unfold handle. simpl.
      destruct (decide (o = o')) as [E|E].
      * subst o'. by rewrite lookup_insert_eq.
      * rewrite !lookup_insert_ne by done.
        destruct (fields w !! o') as [q|] eqn:Eq; simpl; [|done].
        intros ->. destruct (Hlive o' p1 Eq Hp1) as [? ?]. congruence.
    + intros Hin. apply Hnotin. by right.
  - simpl. rewrite lookup_insert_ne by done. apply lookup_insert_eq.
Qed.

End Resources.

Lemma NoDup_two_addresses : NoDup [4096; 8192].
Proof.
  apply NoDup_cons. split; [|apply NoDup_singleton].
  intros H. apply list_elem_of_singleton in H. discriminate.
Qed.

Lemma null_not_two_addresses : nullptr ∉ [4096; 8192].
Proof.
  unfold nullptr. intros H.
  apply elem_of_cons in H as [H|H]; [discriminate|].
  apply list_elem_of_singleton in H. discriminate.
Qed.

(** X6, witness: open, classify, close on object 1. *)
Lemma native_calls_keep_wf_witness :
  wf_world (example_closed RefVad.plain).
Proof.
  apply (native_calls_keep_wf (L := RefVad.plain) [4096; 8192]
           [CallOpen 1%positive 16000 2; CallIsSpeech 1%positive (tone 160);
            CallClose 1%positive]).
  - apply NoDup_two_addresses.
  - apply null_not_two_addresses.
  - reflexivity.
Defined.

(** X8, witness: object 2 is opened and closed beside the open object 1. *)
Lemma open_close_round_trip_witness :
  (run nativeOpen RefVad.plain 2%positive 8000 0 in
   nativeClose RefVad.plain 2%positive) (example_world RefVad.plain busy)
  = Ret tt {| fields := <[2%positive := nullptr]>
                          (fields (example_world RefVad.plain busy));
              heap := heap (example_world RefVad.plain busy);
              supply := [] |}.
Proof.
  apply (open_close_round_trip (L := RefVad.plain) 2%positive 8000 0
           (example_world RefVad.plain busy) 8192 []).
  - apply example_world_wf.
  - reflexivity.
Defined.

(** X9, witness: object 1 is opened twice, then closed. *)
Lemma reopened_instance_leaks_witness :
  ∃ w',
    exec_all [CallOpen 1%positive 16000 2; CallOpen 1%positive 8000 0;
              CallClose 1%positive] (world0 (L := RefVad.plain) [4096; 8192])
    = Ret tt w' ∧
    heap w' !! 4096 = Some (configured (L := RefVad.plain) 16000 2) ∧
    (∀ o', handle w' o' ≠ 4096) ∧
    4096 ∉ supply w'.
Proof.
  eexists. split; [reflexivity|].
  apply (reopened_instance_leaks (L := RefVad.plain) 1%positive 16000 2 8000 0
           [CallClose 1%positive] (world0 [4096; 8192]) _ 4096 8192 []).
  - apply wf_world0; [apply NoDup_two_addresses|apply null_not_two_addresses].
  - reflexivity.
  - reflexivity.
Defined.

(** ** One object among others *)

Section Isolation.

Context {L : FvadLib}.
Implicit Types (w : world L) (o : jobject) (p : ptr) (i : Inst L).

(** What a classification returns, read off the state. *)
Lemma returned_nativeIsSpeech o frame w :
  returned (nativeIsSpeech L o frame w)
  = if decide (handle w o = nullptr) then None
    else (λ i, (process L i (map to_int16 frame)).2) <$> heap w !! handle w o.
Proof.
  rewrite nativeIsSpeech_eq. unfold fvad_process, on_inst.
  destruct (decide (handle w o = nullptr)); [done|].
  by destruct (heap w !! handle w o).
Qed.

(** A call on another object leaves an object's handle and instance. *)
Lemma exec_other c w w' o :
  wf_world w → call_object c ≠ o →
  exec c w = Ret tt w' →
  handle w' o = handle w o ∧ heap w' !! handle w o = heap w !! handle w o.
Proof.
  intros Hwf Hne H.
  pose proof Hwf as (H0 & Hlive & Hinj & _ & Hfree).
  destruct c as [o' sr m|o'|o'|o' frame]; simpl in Hne, H.
  - destruct (nativeOpen_returns _ _ _ _ _ H) as (q & rest & Hs & Hq).
    rewrite (nativeOpen_ok _ _ _ _ _ _ Hs Hq) in H. injection H as <-.
    split.
    + by rewrite (handle_insert_ne o' o q _ _ (heap w) _ (supply w) Hne),
        world_eta.
    + simpl. rewrite lookup_insert_ne; [done|].
      intros ->. destruct (Hfree (handle w o)) as [_ Hnone];
        [rewrite Hs; left|].
      destruct (wf_live w o _ Hwf eq_refl Hq) as [? ?]. congruence.
  - assert (Hh : heap w' !! handle w o = heap w !! handle w o).
    { destruct (decide (handle w o' = nullptr)) as [E|E].
      - rewrite (nativeClose_null _ _ E) in H.
        destruct (assert_inst L); [discriminate|]. by injection H as <-.
      - destruct (wf_live w o' _ Hwf eq_refl E) as [i Hi].
        rewrite (nativeClose_live _ _ _ _ eq_refl E Hi) in H.
        injection H as <-. simpl. rewrite lookup_delete_ne; [done|].
        intros Heq. apply Hne.
        apply (Hinj o' o (handle w o')); [by apply handle_nonnull| |done].
        rewrite Heq. apply handle_nonnull; [done|by rewrite <- Heq]. }
    apply nativeClose_returns in H as [Hf _].
    split; [|done]. unfold handle. rewrite Hf. by rewrite lookup_insert_ne.
  - unfold bind in H. rewrite nativeIsOpen_eq in H. by injection H as <-.
  - unfold bind in H.
    destruct (nativeIsSpeech L o' frame w) as [d w''|] eqn:E; [|discriminate].
    injection H as <-.
    destruct (decide (handle w o' = nullptr)) as [E0|E0].
    + rewrite (nativeIsSpeech_null _ _ _ E0) in E. discriminate.
    + destruct (wf_live w o' _ Hwf eq_refl E0) as [i Hi].
      rewrite (nativeIsSpeech_live _ _ _ _ _ eq_refl E0 Hi) in E.
      injection E as _ <-. split; [done|]. simpl.
      rewrite lookup_insert_ne; [done|].
      intros Heq. apply Hne.
      apply (Hinj o' o (handle w o')); [by apply handle_nonnull| |done].
      rewrite Heq. apply handle_nonnull; [done|by rewrite <- Heq].
Qed.

Lemma exec_all_other cs : ∀ w w' o,
  wf_world w → Forall (λ c, call_object c ≠ o) cs →
  exec_all cs w = Ret tt w' →
  handle w' o = handle w o ∧ heap w' !! handle w o = heap w !! handle w o.
Proof.
  induction cs as [|c cs IH]; simpl; intros w w' o Hwf Hall H.
  - by injection H as <-.
  - apply Forall_cons in Hall as [Hc Hcs].
    unfold bind in H. destruct (exec c w) as [[] w1|] eqn:E; [|discriminate].
    destruct (exec_other c w w1 o Hwf Hc E) as [Hh1 Hi1].
    destruct (IH w1 w' o (exec_wf c w w1 Hwf E) Hcs H) as [Hh2 Hi2].
    rewrite Hh1 in Hh2, Hi2. split; congruence.
Qed.

(** X10.  Objects do not interfere.  Through any program of native calls
    made on other objects (opens, closes, classifications) an object keeps
    its handle and the instance behind it, and a classification on it
    returns after the program what it would have returned before. *)
Theorem other_objects_untouched o cs w w' :
  wf_world w →
  Forall (λ c, call_object c ≠ o) cs →
  exec_all cs w = Ret tt w' →
  handle w' o = handle w o ∧
  heap w' !! handle w o = heap w !! handle w o ∧
  ∀ frame, returned (nativeIsSpeech L o frame w')
           = returned (nativeIsSpeech L o frame w).
Proof.
  intros Hwf Hall H.
  destruct (exec_all_other cs w w' o Hwf Hall H) as [Hh Hi].
  split; [done|]. split; [done|].
  intros frame. rewrite !returned_nativeIsSpeech. by rewrite Hh, Hi.
Qed.

(** On the detector's side a classification that returns leaves the
    fields, the allocator of instances and the set of live instances as
    they are. *)
Lemma nativeIsSpeech_keeps o frame w w' d :
  nativeIsSpeech L o frame w = Ret d w' →
  fields w' = fields w ∧
  supply w' = supply w ∧
  dom (heap w') = dom (heap w) ∧
  ∀ q, q ≠ handle w o → heap w' !! q = heap w !! q.
Proof.
  rewrite nativeIsSpeech_eq. unfold fvad_process, on_inst.
  destruct (decide (handle w o = nullptr)); [discriminate|].
  destruct (heap w !! handle w o) as [i|] eqn:Hi; [|discriminate].
  intros H. injection H as _ <-. simpl.
  split; [done|]. split; [done|]. split.
  - apply dom_insert_lookup_L. eauto.
  - intros q Hq. by rewrite lookup_insert_ne.
Qed.

(** X12.  In a well-formed state [nativeIsOpen] is the test a caller needs
    before the other calls: it answers true exactly when a classification
    on the object returns, and when it answers true a close returns too. *)
Theorem nativeIsOpen_guards o frame w :
  wf_world w →
  (nativeIsOpen L o w = Ret true w
   ↔ is_Some (returned (nativeIsSpeech L o frame w))) ∧
  (nativeIsOpen L o w = Ret true w →
   is_Some (returned (nativeClose L o w))).
Proof.
  intros Hwf. rewrite nativeIsOpen_eq, returned_nativeIsSpeech.
  destruct (decide (handle w o = nullptr)) as [E|E].
  - rewrite bool_decide_eq_false_2 by (by intros ?).
    split; [split|]; try discriminate.
    intros [? ?]. discriminate.
  - rewrite bool_decide_eq_true_2 by done.
    destruct (wf_live w o _ Hwf eq_refl E) as [i Hi].
    split; [split|]; intros _; [by rewrite Hi; eauto|done|].
    rewrite (nativeClose_live o w _ i eq_refl E Hi). simpl. eauto.
Qed.

End Isolation.

(** X10, witness: object 2 is opened, classifies and is closed while
    object 1 is open. *)
Lemma other_objects_untouched_witness :
  ∃ w',
    exec_all [CallOpen 2%positive 8000 0; CallIsSpeech 2%positive (tone 80);
              CallClose 2%positive] (example_world RefVad.plain busy)
    = Ret tt w' ∧
    handle w' 1%positive = handle (example_world RefVad.plain busy) 1%positive ∧
    heap w' !! handle (example_world RefVad.plain busy) 1%positive
    = heap (example_world RefVad.plain busy)
        !! handle (example_world RefVad.plain busy) 1%positive ∧
    ∀ frame,
      returned (nativeIsSpeech RefVad.plain 1%positive frame w')
      = returned (nativeIsSpeech RefVad.plain 1%positive frame
                    (example_world RefVad.plain busy)).
Proof.
  eexists. split; [reflexivity|].
  apply (other_objects_untouched (L := RefVad.plain) 1%positive
           [CallOpen 2%positive 8000 0; CallIsSpeech 2%positive (tone 80);
            CallClose 2%positive] (example_world RefVad.plain busy)).
  - apply example_world_wf.
  - repeat constructor; discriminate.
  - reflexivity.
Defined.

(** X12, witness: the open object 1. *)
Lemma nativeIsOpen_guards_witness :
  (nativeIsOpen RefVad.plain 1%positive (example_world RefVad.plain busy)
   = Ret true (example_world RefVad.plain busy)
   ↔ is_Some (returned (nativeIsSpeech RefVad.plain 1%positive (tone 160)
                          (example_world RefVad.plain busy)))) ∧
  (nativeIsOpen RefVad.plain 1%positive (example_world RefVad.plain busy)
   = Ret true (example_world RefVad.plain busy) →
   is_Some (returned (nativeClose RefVad.plain 1%positive
                        (example_world RefVad.plain busy)))).
Proof.
  apply (nativeIsOpen_guards (L := RefVad.plain) 1%positive (tone 160)
           (example_world RefVad.plain busy)).
  apply example_world_wf.
Defined.

(** ** The array argument *)

Section Arrays.

Context {L : FvadLib}.
Implicit Types (w : world L) (o : jobject) (p : ptr) (j : jni).

Lemma nativeIsSpeech_unfold o frame w :
  nativeIsSpeech L o frame w
  = (call vadPtr := getPointerToVadObject L o in
     fvad_process L vadPtr (narrow_samples frame)) w.
Proof.
  unfold nativeIsSpeech, bind. simpl.
  by destruct (fvad_process L _ (narrow_samples frame) w).
Qed.

(** The native method on an array whose elements and scratch array are
    provided is the list-level call on the array's contents. *)
Lemma nativeIsSpeech_jni_granted o r elems j w eo so :
  arrays j !! r = Some elems →
  elements_ok j = true :: eo →
  scratch_ok j = true :: so →
  nativeIsSpeech_jni L o (Some r) j w
  = match nativeIsSpeech L o elems w with
    | Ret d w' =>
        JRet d {| arrays := arrays j; held := r :: held j;
                  elements_ok := eo; scratch_live := scratch_live j;
                  scratch_ok := so |} w'
    | Crash c => JCrash c
    end.
Proof.
  intros Ha He Hs.
  unfold nativeIsSpeech_jni, GetArrayLength, GetIntArrayElements, new_int16.
  rewrite Ha, He. simpl. rewrite Hs. simpl.
  rewrite nativeIsSpeech_unfold. unfold narrow_samples.
  destruct ((call vadPtr := getPointerToVadObject L o in
             fvad_process L vadPtr _) w); reflexivity.
Qed.

(** Whenever the native method returns, it returns what the list-level
    call returns on the array's contents, and the machine is as before but
    for the elements it holds. *)
Lemma nativeIsSpeech_jni_inv o a j w d j' w' :
  nativeIsSpeech_jni L o a j w = JRet d j' w' →
  ∃ r elems,
    a = Some r ∧ arrays j !! r = Some elems ∧
    nativeIsSpeech L o elems w = Ret d w' ∧
    arrays j' = arrays j ∧
    scratch_live j' = scratch_live j ∧
    (held j' = r :: held j ∨ (held j' = held j ∧ elems = [])).
Proof.
  unfold nativeIsSpeech_jni, GetArrayLength.
  destruct a as [r|]; [|discriminate].
  destruct (arrays j !! r) as [elems|] eqn:Ha; [|discriminate]. simpl.
  unfold GetIntArrayElements. rewrite Ha.
  intros H. exists r, elems. split; [done|]. split; [done|].
  rewrite nativeIsSpeech_unfold. unfold narrow_samples.
  destruct (elements_ok j) as [|[] eo]; unfold new_int16 in H; simpl in H;
    destruct (scratch_ok j) as [|[] so]; try discriminate; simpl in H.
  - destruct elems as [|x xs]; [|discriminate]. simpl in *.
    destruct ((call vadPtr := getPointerToVadObject L o in
               fvad_process L vadPtr _) w) as [d0 w0|]; [|discriminate].
    injection H as <- <- <-. simpl. naive_solver.
  - destruct ((call vadPtr := getPointerToVadObject L o in
               fvad_process L vadPtr _) w) as [d0 w0|]; [|discriminate].
    injection H as <- <- <-. simpl. naive_solver.
  - destruct elems as [|x xs]; [|discriminate]. simpl in *.
    destruct ((call vadPtr := getPointerToVadObject L o in
               fvad_process L vadPtr _) w) as [d0 w0|]; [|discriminate].
    injection H as <- <- <-. simpl. naive_solver.
Qed.

(** X11.  A classification that returns has rewritten no handle and has
    neither allocated nor released a detector instance, and it has deleted
    its scratch array again.  The elements it obtained from the array it
    never gives back: after every returning call the array is one more time
    among the elements held, unless the array is empty and no elements were
    provided; nothing that was held before is released. *)
Theorem nativeIsSpeech_jni_holds_elements o a j w d j' w' :
  nativeIsSpeech_jni L o a j w = JRet d j' w' →
  fields w' = fields w ∧
  supply w' = supply w ∧
  dom (heap w') = dom (heap w) ∧
  arrays j' = arrays j ∧
  scratch_live j' = scratch_live j ∧
  ∃ r elems,
    a = Some r ∧ arrays j !! r = Some elems ∧
    (held j' = r :: held j ∨ (held j' = held j ∧ elems = [])) ∧
    (elems ≠ [] → held j' = r :: held j).
Proof.
  intros H.
  destruct (nativeIsSpeech_jni_inv o a j w d j' w' H)
    as (r & elems & Ha & Harr & Hcall & Harrs & Hscr & Hheld).
  destruct (nativeIsSpeech_keeps o elems w w' d Hcall) as (Hf & Hs & Hd & _).
  repeat (split; [done|]).
  exists r, elems. repeat (split; [done|]).
  intros Hne. destruct Hheld as [Hh|[_ He]]; [done|]. by destruct Hne.
Qed.

(** X13.  The native method refines the list-level call.  Whenever it
    returns, its result and the state of the detector are those of
    [nativeIsSpeech] on the contents of the array; and when the array is
    live and the machine provides the elements and the scratch array, it
    ends as [nativeIsSpeech] on the contents does: with the same result and
    state, or with the same crash. *)
Theorem nativeIsSpeech_jni_refines o a j w :
  (∀ d j' w',
     nativeIsSpeech_jni L o a j w = JRet d j' w' →
     ∃ r elems, a = Some r ∧ arrays j !! r = Some elems ∧
                nativeIsSpeech L o elems w = Ret d w') ∧
  (∀ r elems eo so,
     a = Some r → arrays j !! r = Some elems →
     elements_ok j = true :: eo → scratch_ok j = true :: so →
     match nativeIsSpeech L o elems w with
     | Ret d w' => ∃ j', nativeIsSpeech_jni L o a j w = JRet d j' w'
     | Crash c => nativeIsSpeech_jni L o a j w = JCrash c
     end).
Proof.
  split.
  - intros d j' w' H.
    destruct (nativeIsSpeech_jni_inv o a j w d j' w' H)
      as (r & elems & Ha & Harr & Hcall & _).
    by exists r, elems.
  - intros r elems eo so -> Harr He Hs.
    rewrite (nativeIsSpeech_jni_granted o r elems j w eo so Harr He Hs).
    destruct (nativeIsSpeech L o elems w); eauto.
Qed.

(** X7.  In a well-formed state no native call releases or uses a pointer
    to a detector that is not a live instance, and the undefined calls are
    these.  [nativeClose] and [nativeIsOpen] are never undefined.
    [nativeOpen] is undefined exactly when the allocation failed and the
    library has no check of its instance.  [nativeIsSpeech] is undefined
    exactly when its array reference is null or not a live array, or, with
    the scratch array allocated, when no elements were provided for an
    array that is not empty, or when the elements are there or not needed
    and the handle is null and the library has no check of its instance. *)
Theorem wf_undefined_paths o sampleRate mode a j w :
  wf_world w →
  nativeClose L o w ≠ Crash Undefined ∧
  nativeIsOpen L o w ≠ Crash Undefined ∧
  (nativeOpen L o sampleRate mode w = Crash Undefined
   ↔ assert_inst L = false ∧ supply w = []) ∧
  (nativeIsSpeech_jni L o a j w = JCrash Undefined
   ↔ match a with
     | None => True
     | Some r =>
         match arrays j !! r with
         | None => True
         | Some elems =>
             head (scratch_ok j) = Some true ∧
             if bool_decide (head (elements_ok j) = Some true ∨ elems = [])
             then assert_inst L = false ∧ handle w o = nullptr
             else True
         end
     end).
Proof.
  intros Hwf.
  pose proof Hwf as (_ & _ & _ & _ & Hfree).
  split; [|split; [|split]].
  - destruct (decide (handle w o = nullptr)) as [E|E].
    + rewrite (nativeClose_null _ _ E). by destruct (assert_inst L).
    + destruct (wf_live w o _ Hwf eq_refl E) as [i Hi].
      by rewrite (nativeClose_live _ _ _ _ eq_refl E Hi).
  - by rewrite nativeIsOpen_eq.
  - destruct (supply w) as [|p rest] eqn:Hs.
    + rewrite (nativeOpen_exhausted _ _ _ _ Hs). unfold null_use.
      destruct (assert_inst L); split; try done. by intros [? _].
    + destruct (Hfree p) as [Hp _]; [left|].
      rewrite (nativeOpen_ok _ _ _ _ _ _ Hs Hp). split; [done|].
      by intros [_ ?].
  - unfold nativeIsSpeech_jni, GetArrayLength.
    destruct a as [r|]; [|done].
    destruct (arrays j !! r) as [elems|] eqn:Ha; [|done]. simpl.
    unfold GetIntArrayElements. rewrite Ha.
    assert (Hgo : ∀ audio j0,
              match (call vadPtr := getPointerToVadObject L o in
                     fvad_process L vadPtr audio) w with
              | Ret result w' => JRet result j0 w'
              | Crash c => JCrash c
              end = JCrash Undefined
              ↔ assert_inst L = false ∧ handle w o = nullptr).
    { intros audio j0.
      unfold bind, getPointerToVadObject, fvad_process, on_inst.
      fold (handle w o).
      destruct (decide (handle w o = nullptr)) as [E|E].
      - unfold null_use. destruct (assert_inst L); split; try done.
        by intros [? _].
      - destruct (wf_live w o _ Hwf eq_refl E) as [i Hi]. rewrite Hi.
        split; [done|]. by intros [_ ?]. }
    destruct (elements_ok j) as [|[] eo]; unfold new_int16; simpl;
      destruct (scratch_ok j) as [|[] so]; simpl;
      try (split; [discriminate|by intros [? _]]).
    all: destruct elems as [|x xs]; simpl; rewrite ?Hgo;
      repeat case_bool_decide; intuition (done || discriminate).
Qed.

End Arrays.

(** X7, witness: a classification of array 7 on object 2, which was never
    opened, with a library without instance check. *)
Lemma wf_undefined_paths_witness :
  nativeIsSpeech_jni RefVad.plain 2%positive (Some 7%positive) example_jni
    (example_world RefVad.plain busy)
  = JCrash Undefined.
Proof.
  apply (wf_undefined_paths (L := RefVad.plain) 2%positive 0 0
           (Some 7%positive) example_jni (example_world RefVad.plain busy)).
  - apply example_world_wf.
  - simpl. split; [reflexivity|]. split; reflexivity.
Defined.

(** X11, witness: array 7 is classified on the open object 1, while its
    elements are held once already. *)
Lemma nativeIsSpeech_jni_holds_elements_witness :
  ∃ d j' w',
    nativeIsSpeech_jni RefVad.plain 1%positive (Some 7%positive) example_jni
      (example_world RefVad.plain busy) = JRet d j' w' ∧
    held j' = [7%positive; 7%positive] ∧
    scratch_live j' = 0%nat ∧
    fields w' = fields (example_world RefVad.plain busy) ∧
    supply w' = supply (example_world RefVad.plain busy) ∧
    dom (heap w') = dom (heap (example_world RefVad.plain busy)) ∧
    arrays j' = arrays example_jni ∧
    scratch_live j' = scratch_live example_jni ∧
    ∃ r elems,
      Some 7%positive = Some r ∧ arrays example_jni !! r = Some elems ∧
      (held j' = r :: held example_jni
       ∨ (held j' = held example_jni ∧ elems = [])) ∧
      (elems ≠ [] → held j' = r :: held example_jni).
Proof.
  eexists _, _, _. split; [reflexivity|].
  split; [reflexivity|]. split; [reflexivity|].
  eapply (nativeIsSpeech_jni_holds_elements (L := RefVad.plain) 1%positive
            (Some 7%positive) example_jni (example_world RefVad.plain busy)).
  reflexivity.
Defined.

(** X13, witness: array 7 on the open object 1; the empty array 8 on the
    same object. *)
Lemma nativeIsSpeech_jni_refines_witness :
  (∃ j', nativeIsSpeech_jni RefVad.plain 1%positive (Some 7%positive)
           example_jni (example_world RefVad.plain busy)
         = JRet 1 j' (example_world RefVad.plain busy)) ∧
  (∃ j', nativeIsSpeech_jni RefVad.plain 1%positive (Some 8%positive)
           example_jni (example_world RefVad.plain busy)
         = JRet (-1) j' (example_world RefVad.plain busy)).
Proof.
  split.
  - apply (proj2 (nativeIsSpeech_jni_refines (L := RefVad.plain) 1%positive
                    (Some 7%positive) example_jni
                    (example_world RefVad.plain busy))
             7%positive (tone 160) [true] [true]); reflexivity.
  - apply (proj2 (nativeIsSpeech_jni_refines (L := RefVad.plain) 1%positive
                    (Some 8%positive) example_jni
                    (example_world RefVad.plain busy))
             8%positive [] [true] [true]); reflexivity.
Defined.
